(** * HyperERC721: token URI resolution, minting and royalties

    A shallow embedding of [contracts/HyperERC721.sol] (Solidity ^0.8.24,
    OpenZeppelin Contracts 5.x).  Every external function of the contract is
    a Rocq function from the pre-state to either a post-state (or a returned
    value) or the error the EVM reverts with.  Unsigned integers are [Z]
    with Solidity's checked arithmetic written out: an operation whose
    mathematical result leaves the 256-bit range reverts with [Panic 0x11].

    Minting hands each token to its recipient through [onERC721Received],
    and a recipient that is a contract may call back into the contract
    before it answers.  A call is therefore modelled with the calls made
    from inside it: the environment of a call carries what recipients do
    when they are handed a token.

    The storage modelled is what the functions below read or write.  The
    enumeration indexes, balances and approvals of the inherited token, and
    [supportsInterface] are left out: none of the functions below reads
    them. *)

From stdpp Require Import gmap strings.

Open Scope Z_scope.

(** ** Machine integers, addresses and revert reasons *)

Abbreviation address := Z (only parsing).

Definition MAX_UINT256 : Z := 2 ^ 256 - 1.
Definition MAX_UINT96 : Z := 2 ^ 96 - 1.
Definition MAX_ADDRESS : Z := 2 ^ 160 - 1.

(** [1 ether] in wei. *)
Definition ether : Z := 10 ^ 18.

Inductive Error : Type :=
| ERC721NonexistentToken (tokenId : Z)
| ERC721InvalidReceiver (receiver : address)
| ERC721InvalidSender (sender : address)
| OwnableUnauthorizedAccount (account : address)
| EnforcedPause
| ExpectedPause
| Reason (message : string)
| Panic (code : Z).

Inductive result (A : Type) : Type :=
| Ok (a : A)
| Revert (e : Error).

Arguments Ok {A} a.
Arguments Revert {A} e.

Definition bind {A B : Type} (m : result A) (k : A -> result B) : result B :=
  match m with
  | Ok a => k a
  | Revert e => Revert e
  end.

Notation "'let*' x ':=' m 'in' k" := (bind m (fun x => k))
  (at level 10, x pattern, m at level 100, k at level 200).

(** [require(cond, message)]. *)
Definition require (cond : bool) (message : string) : result unit :=
  if cond then Ok tt else Revert (Reason message).

(** Arithmetic overflow or underflow outside an [unchecked] block. *)
Definition ARITHMETIC_PANIC : Z := 17.

Definition checked_add (a b : Z) : result Z :=
  if a + b <=? MAX_UINT256 then Ok (a + b) else Revert (Panic ARITHMETIC_PANIC).

Definition checked_sub (a b : Z) : result Z :=
  if b <=? a then Ok (a - b) else Revert (Panic ARITHMETIC_PANIC).

Definition checked_mul (a b : Z) : result Z :=
  if a * b <=? MAX_UINT256 then Ok (a * b) else Revert (Panic ARITHMETIC_PANIC).

Definition is_uint256 (x : Z) : Prop := 0 <= x <= MAX_UINT256.
Definition is_uint96 (x : Z) : Prop := 0 <= x <= MAX_UINT96.
Definition is_address (x : Z) : Prop := 0 <= x <= MAX_ADDRESS.

(** ** Strings

    [abi.encodePacked] of strings is their concatenation.  [keccak256] is
    taken to be collision free, so that comparing two digests is comparing
    the packed strings. *)

Definition encodePacked2 (a b : string) : string := a +:+ b.
Definition encodePacked3 (a b c : string) : string := a +:+ b +:+ c.

Definition keccak256_eqb (a b : string) : bool := String.eqb a b.

Definition digit (d : Z) : Ascii.ascii := Ascii.ascii_of_nat (48 + Z.to_nat d).

Fixpoint toString_digits (fuel : nat) (value : Z) (buffer : string) : string :=
  match fuel with
  | O => buffer
  | S fuel' =>
      let buffer' := String (digit (value mod 10)) buffer in
      if value / 10 =? 0 then buffer' else toString_digits fuel' (value / 10) buffer'
  end.

(** Modelled from the spec: [Strings.toString] (the [decimalString] of the
    spec) belongs to the imported OpenZeppelin library; it is the ASCII
    decimal representation of a [uint256], which has at most 78 digits. *)
Definition toString (value : Z) : string := toString_digits 78 value EmptyString.

(** ** Contract storage *)

Record State : Type := mkState {
  (* ERC721 *)
  _name : string;
  _symbol : string;
  _owners : gmap Z address;
  (* ERC721URIStorage *)
  _tokenURIs : gmap Z string;
  (* Pausable *)
  _paused : bool;
  (* Ownable *)
  _owner : address;
  (* HyperERC721 *)
  _nextTokenId : Z;
  maxSupply : Z;
  publicMintPrice : Z;
  maxMintsPerAddress : Z;
  publicMintEnabled : bool;
  _baseTokenURI : string;
  useJsonExtension : bool;
  royaltyRecipient : address;
  royaltyFeeBps : Z;
  mintsPerAddress : gmap address Z
}.

Definition set_owners (v : gmap Z address) (st : State) : State :=
  mkState (_name st) (_symbol st) v (_tokenURIs st) (_paused st) (_owner st)
    (_nextTokenId st) (maxSupply st) (publicMintPrice st) (maxMintsPerAddress st)
    (publicMintEnabled st) (_baseTokenURI st) (useJsonExtension st)
    (royaltyRecipient st) (royaltyFeeBps st) (mintsPerAddress st).

Definition set_paused (v : bool) (st : State) : State :=
  mkState (_name st) (_symbol st) (_owners st) (_tokenURIs st) v (_owner st)
    (_nextTokenId st) (maxSupply st) (publicMintPrice st) (maxMintsPerAddress st)
    (publicMintEnabled st) (_baseTokenURI st) (useJsonExtension st)
    (royaltyRecipient st) (royaltyFeeBps st) (mintsPerAddress st).

Definition set_owner (v : address) (st : State) : State :=
  mkState (_name st) (_symbol st) (_owners st) (_tokenURIs st) (_paused st) v
    (_nextTokenId st) (maxSupply st) (publicMintPrice st) (maxMintsPerAddress st)
    (publicMintEnabled st) (_baseTokenURI st) (useJsonExtension st)
    (royaltyRecipient st) (royaltyFeeBps st) (mintsPerAddress st).

Definition set_nextTokenId (v : Z) (st : State) : State :=
  mkState (_name st) (_symbol st) (_owners st) (_tokenURIs st) (_paused st) (_owner st)
    v (maxSupply st) (publicMintPrice st) (maxMintsPerAddress st)
    (publicMintEnabled st) (_baseTokenURI st) (useJsonExtension st)
    (royaltyRecipient st) (royaltyFeeBps st) (mintsPerAddress st).

Definition set_publicMint (enabled : bool) (price maxPerAddress : Z) (st : State) : State :=
  mkState (_name st) (_symbol st) (_owners st) (_tokenURIs st) (_paused st) (_owner st)
    (_nextTokenId st) (maxSupply st) price maxPerAddress
    enabled (_baseTokenURI st) (useJsonExtension st)
    (royaltyRecipient st) (royaltyFeeBps st) (mintsPerAddress st).

Definition set_baseTokenURI (v : string) (st : State) : State :=
  mkState (_name st) (_symbol st) (_owners st) (_tokenURIs st) (_paused st) (_owner st)
    (_nextTokenId st) (maxSupply st) (publicMintPrice st) (maxMintsPerAddress st)
    (publicMintEnabled st) v (useJsonExtension st)
    (royaltyRecipient st) (royaltyFeeBps st) (mintsPerAddress st).

Definition set_useJsonExtension (v : bool) (st : State) : State :=
  mkState (_name st) (_symbol st) (_owners st) (_tokenURIs st) (_paused st) (_owner st)
    (_nextTokenId st) (maxSupply st) (publicMintPrice st) (maxMintsPerAddress st)
    (publicMintEnabled st) (_baseTokenURI st) v
    (royaltyRecipient st) (royaltyFeeBps st) (mintsPerAddress st).

Definition set_royalty (recipient : address) (feeBps : Z) (st : State) : State :=
  mkState (_name st) (_symbol st) (_owners st) (_tokenURIs st) (_paused st) (_owner st)
    (_nextTokenId st) (maxSupply st) (publicMintPrice st) (maxMintsPerAddress st)
    (publicMintEnabled st) (_baseTokenURI st) (useJsonExtension st)
    recipient feeBps (mintsPerAddress st).

Definition set_mintsPerAddress (v : gmap address Z) (st : State) : State :=
  mkState (_name st) (_symbol st) (_owners st) (_tokenURIs st) (_paused st) (_owner st)
    (_nextTokenId st) (maxSupply st) (publicMintPrice st) (maxMintsPerAddress st)
    (publicMintEnabled st) (_baseTokenURI st) (useJsonExtension st)
    (royaltyRecipient st) (royaltyFeeBps st) v.

(** ** Calls and their environment *)

(** The entry points of HyperERC721 that change the storage. *)
Inductive Call : Type :=
| Mint (to : address) (quantity : Z)
| PublicMint (quantity : Z)
| SetBaseURI (baseURI : string)
| SetJsonExtension (useExtension : bool)
| SetPublicMintSettings (enabled : bool) (price maxPerAddress : Z)
| SetRoyaltyInfo (recipient : address) (feeBps : Z)
| Pause
| Unpause.

(** What a contract may do to the token contract while it is being handed
    a token: call one of its entry points (itself, or through another
    contract, hence any [sender]), or use the inherited ERC-721 and
    Ownable entry points, which are over-approximated as for [step] below:
    a transfer hands an existing token to a non-zero address, the owning
    authority changes. *)
Inductive Action : Type :=
| DoCall (sender : address) (value : Z) (c : Call)
| DoTransfer (tokenId : Z) (to : address)
| DoOwnership (newOwner : address).

(** The run of a recipient's [onERC721Received]: the actions it takes, in
    order (one that reverts is caught and leaves the storage as it was),
    and whether in the end it returns the acknowledgement.  A recipient is
    a deterministic program, so what it does is a function of the token it
    is handed and of the storage at that moment (see [Env]). *)
Record Reaction : Type := mkReaction {
  actions : list Action;
  accepts : bool
}.

(** An externally owned account, and a contract that only acknowledges. *)
Definition quiet : Reaction := mkReaction [] true.

(** The environment of one call: the caller, the value sent along, and
    what the recipient [to] of token [tokenId] does when it is handed the
    token, the storage being [st] at that moment.  A recipient may also go
    by a memory of its own, which is not modelled; a token being handed
    over once only, what it does in a given run is still a function of the
    token. *)
Record Env : Type := mkEnv {
  msg_sender : address;
  msg_value : Z;
  onERC721Received : address -> Z -> State -> Reaction
}.

(** How a call made from inside a hook runs: it yields the storage it
    leaves behind (the storage it found, when it reverts). *)
Definition Nested : Type := Env -> Call -> State -> State.

(** ** Inherited behaviour (OpenZeppelin) *)

(** A Solidity mapping reads the zero value at a key never written. *)
Definition _ownerOf (st : State) (tokenId : Z) : address :=
  default 0 (_owners st !! tokenId).

Definition mintsOf (st : State) (account : address) : Z :=
  default 0 (mintsPerAddress st !! account).

(** Modelled from the spec: [ERC721._requireOwned] is not part of the
    repository's sources; by sections 4.1 and 7 resolution of a token that
    does not exist fails with NotFound, OpenZeppelin's
    [ERC721NonexistentToken]. *)
Definition _requireOwned (st : State) (tokenId : Z) : result address :=
  let owner := _ownerOf st tokenId in
  if decide (owner = 0) then Revert (ERC721NonexistentToken tokenId) else Ok owner.

(** Modelled from the spec: the [onlyOwner] modifier of [Ownable]; by
    sections 6 and 7 a caller other than the owning authority is refused
    with an authorization error (the tests name it
    [OwnableUnauthorizedAccount]). *)
Definition onlyOwner (env : Env) (st : State) : result unit :=
  if decide (_owner st = msg_sender env) then Ok tt
  else Revert (OwnableUnauthorizedAccount (msg_sender env)).

(** Modelled from the spec: the pause check of the imported [Pausable]
    (section 9); the tests name its error [EnforcedPause]. *)
Definition whenNotPaused (st : State) : result unit :=
  if _paused st then Revert EnforcedPause else Ok tt.

(** Its dual, which guards [_unpause]. *)
Definition whenPaused (st : State) : result unit :=
  if _paused st then Ok tt else Revert ExpectedPause.

Definition _baseURI (st : State) : string := _baseTokenURI st.

(** Modelled from the spec: [ERC721.tokenURI], the default of the
    imported token: base + decimal id under a non-empty base, the empty
    string otherwise. *)
Definition ERC721_tokenURI (st : State) (tokenId : Z) : result string :=
  let* _ := _requireOwned st tokenId in
  let baseURI := _baseURI st in
  if Nat.ltb 0 (String.length baseURI) then Ok (encodePacked2 baseURI (toString tokenId))
  else Ok EmptyString.

(** Modelled from the spec: [ERC721URIStorage.tokenURI], the lookup that
    section 4.1 delegates to the external storage, is not part of the
    repository's sources; it is the one of OpenZeppelin Contracts 5.  The
    string stored for the token (empty when none was stored) is returned as
    it is under an empty base; under a non-empty base a non-empty stored
    string is returned with the base in front of it, and otherwise the
    default of [ERC721.tokenURI] is returned. *)
Definition ERC721URIStorage_tokenURI (st : State) (tokenId : Z) : result string :=
  let* _ := _requireOwned st tokenId in
  let _tokenURI := default EmptyString (_tokenURIs st !! tokenId) in
  let base := _baseURI st in
  if Nat.eqb (String.length base) 0 then Ok _tokenURI
  else if Nat.ltb 0 (String.length _tokenURI) then Ok (encodePacked2 base _tokenURI)
  else ERC721_tokenURI st tokenId.

(** The inherited transfer, over-approximated: an existing token goes to a
    non-zero address, whoever asks. *)
Definition transfer (tokenId : Z) (to : address) (st : State) : State :=
  if decide (_ownerOf st tokenId = 0) then st
  else if decide (to = 0) then st
  else set_owners (<[tokenId := to]> (_owners st)) st.

(** One action of a hook; [call] runs the calls it makes, which see the
    same recipients as the call they are made from. *)
Definition perform (call : Nested) (env : Env) (a : Action) (st : State) : State :=
  match a with
  | DoCall sender value c => call (mkEnv sender value (onERC721Received env)) c st
  | DoTransfer tokenId to => transfer tokenId to st
  | DoOwnership newOwner => set_owner newOwner st
  end.

(** Modelled from the spec: [_safeMint] of the imported ERC721 is not part
    of the repository's sources.  It refuses the zero address, goes through
    [_update] (which [ERC721Pausable] guards with [whenNotPaused]), refuses
    a token that already has a holder, records the new holder, and then
    calls the recipient's [onERC721Received]: the recipient takes its
    actions on the storage as it is by then, the new holder recorded, and
    the mint reverts unless the recipient acknowledges in the end (the
    library reports [ERC721InvalidReceiver], or the recipient's own reason
    when it gives one; the model has the former).  Nothing guards against
    the recipient calling back into the contract. *)
Definition _safeMint (call : Nested) (env : Env) (to : address) (tokenId : Z) (st : State)
    : result State :=
  if decide (to = 0) then Revert (ERC721InvalidReceiver 0) else
  let* _ := whenNotPaused st in
  if decide (_ownerOf st tokenId = 0) then
    let st' := set_owners (<[tokenId := to]> (_owners st)) st in
    let reaction := onERC721Received env to tokenId st' in
    let st'' := fold_left (fun s a => perform call env a s) (actions reaction) st' in
    if accepts reaction then Ok st''
    else Revert (ERC721InvalidReceiver to)
  else Revert (ERC721InvalidSender 0).

(** ** HyperERC721 *)

Definition constructor (deployer : address) (name symbol : string) (maxSupply_ : Z)
    (baseURI : string) (royaltyRecipient_ : address) (royaltyFeeBps_ : Z)
    (useJsonExtension_ : bool) : State :=
  {| _name := name;
     _symbol := symbol;
     _owners := ∅;
     _tokenURIs := ∅;
     _paused := false;
     _owner := deployer;
     _nextTokenId := 1;
     maxSupply := maxSupply_;
     publicMintPrice := ether / 100;
     maxMintsPerAddress := 10;
     publicMintEnabled := false;
     _baseTokenURI := baseURI;
     useJsonExtension := useJsonExtension_;
     royaltyRecipient := royaltyRecipient_;
     royaltyFeeBps := royaltyFeeBps_;
     mintsPerAddress := ∅ |}.

(** The body of both minting loops:
    [tokenId = _nextTokenId; _nextTokenId++; _safeMint(to, tokenId)],
    [count] times.  The counter is read anew in every round. *)
Fixpoint mint_loop (call : Nested) (env : Env) (to : address) (count : nat) (st : State)
    : result State :=
  match count with
  | O => Ok st
  | S count' =>
      let tokenId := _nextTokenId st in
      let* next := checked_add (_nextTokenId st) 1 in
      let* st' := _safeMint call env to tokenId (set_nextTokenId next st) in
      mint_loop call env to count' st'
  end.

Definition SUPPLY_MSG : string := "Exceeds maximum supply".

(** [require(_nextTokenId + quantity - 1 <= maxSupply, ...)]. *)
Definition requireSupply (st : State) (quantity : Z) : result unit :=
  let* s := checked_add (_nextTokenId st) quantity in
  let* last := checked_sub s 1 in
  require (last <=? maxSupply st) SUPPLY_MSG.

(** The bodies of [mint] and [publicMint], over the way [call] in which
    calls made from inside them run. *)
Definition mint_in (call : Nested) (env : Env) (to : address) (quantity : Z) (st : State)
    : result State :=
  let* _ := onlyOwner env st in
  let* _ := requireSupply st quantity in
  mint_loop call env to (Z.to_nat quantity) st.

Definition publicMint_in (call : Nested) (env : Env) (quantity : Z) (st : State)
    : result State :=
  let* _ := whenNotPaused st in
  let* _ := require (publicMintEnabled st) "Public mint not enabled" in
  let* _ := require (0 <? quantity) "Quantity must be greater than 0" in
  let* _ := requireSupply st quantity in
  let* minted := checked_add (mintsOf st (msg_sender env)) quantity in
  let* _ := require (minted <=? maxMintsPerAddress st) "Exceeds max mints per address" in
  let* price := checked_mul (publicMintPrice st) quantity in
  let* _ := require (price <=? msg_value env) "Insufficient payment" in
  let st1 := set_mintsPerAddress (<[msg_sender env := minted]> (mintsPerAddress st)) st in
  mint_loop call env (msg_sender env) (Z.to_nat quantity) st1.

Definition setBaseURI (env : Env) (baseURI : string) (st : State) : result State :=
  let* _ := onlyOwner env st in
  Ok (set_baseTokenURI baseURI st).

Definition setJsonExtension (env : Env) (useExtension : bool) (st : State) : result State :=
  let* _ := onlyOwner env st in
  Ok (set_useJsonExtension useExtension st).

Definition setPublicMintSettings (env : Env) (enabled : bool) (price maxPerAddress : Z)
    (st : State) : result State :=
  let* _ := onlyOwner env st in
  Ok (set_publicMint enabled price maxPerAddress st).

Definition ROYALTY_MSG : string := "Royalty fee too high".

Definition setRoyaltyInfo (env : Env) (recipient : address) (feeBps : Z) (st : State)
    : result State :=
  let* _ := onlyOwner env st in
  let* _ := require (feeBps <=? 1000) ROYALTY_MSG in
  Ok (set_royalty recipient feeBps st).

Definition pause (env : Env) (st : State) : result State :=
  let* _ := onlyOwner env st in
  let* _ := whenNotPaused st in
  Ok (set_paused true st).

Definition unpause (env : Env) (st : State) : result State :=
  let* _ := onlyOwner env st in
  let* _ := whenPaused st in
  Ok (set_paused false st).

Definition nextTokenId (st : State) : Z := _nextTokenId st.

Definition totalMinted (st : State) : result Z := checked_sub (_nextTokenId st) 1.

Definition royaltyInfo (st : State) (tokenId salePrice : Z) : result (address * Z) :=
  let receiver := royaltyRecipient st in
  let* product := checked_mul salePrice (royaltyFeeBps st) in
  Ok (receiver, product / 10000).

Definition tokenURI (st : State) (tokenId : Z) : result string :=
  let* _ := _requireOwned st tokenId in
  let* parentURI := ERC721URIStorage_tokenURI st tokenId in
  let baseURI := _baseURI st in
  if Nat.eqb (String.length baseURI) 0 then Ok parentURI else
  let defaultTokenIdStr := toString tokenId in
  let expectedBaseURI := encodePacked2 baseURI defaultTokenIdStr in
  if negb (keccak256_eqb parentURI expectedBaseURI) then Ok parentURI else
  if useJsonExtension st then Ok (encodePacked3 baseURI defaultTokenIdStr ".json")
  else Ok (encodePacked2 baseURI defaultTokenIdStr).

(** ** Transactions and reachable states *)

Definition exec_in (call : Nested) (env : Env) (c : Call) (st : State) : result State :=
  match c with
  | Mint to quantity => mint_in call env to quantity st
  | PublicMint quantity => publicMint_in call env quantity st
  | SetBaseURI baseURI => setBaseURI env baseURI st
  | SetJsonExtension useExtension => setJsonExtension env useExtension st
  | SetPublicMintSettings enabled price maxPerAddress =>
      setPublicMintSettings env enabled price maxPerAddress st
  | SetRoyaltyInfo recipient feeBps => setRoyaltyInfo env recipient feeBps st
  | Pause => pause env st
  | Unpause => unpause env st
  end.

(** A call with [depth] levels of calls left below it.  A call that
    reverts leaves the storage as it found it; so does one that cannot be
    made because the depth is used up. *)
Fixpoint transact_at (depth : nat) (env : Env) (c : Call) (st : State) : State :=
  match depth with
  | O => st
  | S depth' =>
      match exec_in (transact_at depth') env c st with
      | Ok st' => st'
      | Revert _ => st
      end
  end.

(** The EVM lets calls nest 1024 deep. *)
Definition CALL_DEPTH : nat := 1024.

Definition nested : Nested := transact_at CALL_DEPTH.

(** The functions as they are called from outside. *)
Definition mint (env : Env) (to : address) (quantity : Z) (st : State) : result State :=
  mint_in nested env to quantity st.

Definition publicMint (env : Env) (quantity : Z) (st : State) : result State :=
  publicMint_in nested env quantity st.

Definition exec (env : Env) (c : Call) (st : State) : result State :=
  exec_in nested env c st.

(** A call that reverts leaves the storage as it found it. *)
Definition transact (env : Env) (c : Call) (st : State) : State :=
  match exec env c st with
  | Ok st' => st'
  | Revert _ => st
  end.

(** Arguments arrive ABI-decoded: every integer is in the range of its type. *)
Definition valid_call (c : Call) : Prop :=
  match c with
  | Mint to quantity => is_address to /\ is_uint256 quantity
  | PublicMint quantity => is_uint256 quantity
  | SetPublicMintSettings _ price maxPerAddress => is_uint256 price /\ is_uint256 maxPerAddress
  | SetRoyaltyInfo recipient feeBps => is_address recipient /\ is_uint96 feeBps
  | _ => True
  end.

Definition valid_action (a : Action) : Prop :=
  match a with
  | DoCall sender value c => is_address sender /\ is_uint256 value /\ valid_call c
  | DoTransfer _ to => is_address to
  | DoOwnership newOwner => is_address newOwner
  end.

Definition valid_env (env : Env) : Prop :=
  is_address (msg_sender env) /\ is_uint256 (msg_value env)
  /\ forall to tokenId st, Forall valid_action (actions (onERC721Received env to tokenId st)).

(** One step of the contract's life.  Besides the functions of
    HyperERC721 itself, the inherited ERC-721 and Ownable entry points
    (transfers, approvals, ownership hand-over) are over-approximated: a
    transfer may hand an existing token to any non-zero address, and the
    owning authority may change; they touch nothing else. *)
Inductive step : State -> State -> Prop :=
| step_call env c st :
    valid_env env -> valid_call c -> step st (transact env c st)
| step_transfer st tokenId to :
    _ownerOf st tokenId <> 0 -> to <> 0 ->
    step st (set_owners (<[tokenId := to]> (_owners st)) st)
| step_ownership st newOwner :
    step st (set_owner newOwner st).

Inductive reachable : State -> Prop :=
| reachable_init deployer name symbol maxSupply_ baseURI recipient feeBps flag :
    is_uint256 maxSupply_ ->
    reachable (constructor deployer name symbol maxSupply_ baseURI recipient feeBps flag)
| reachable_step st st' :
    reachable st -> step st st' -> reachable st'.

(** Any number of steps. *)
Inductive steps : State -> State -> Prop :=
| steps_refl st : steps st st
| steps_step st st' st'' : steps st st' -> step st' st'' -> steps st st''.

(** The default (flag-based) metadata location of a token. *)
Definition defaultURI (st : State) (tokenId : Z) : string :=
  if useJsonExtension st then _baseURI st +:+ toString tokenId +:+ ".json"
  else _baseURI st +:+ toString tokenId.

(** ** Single writes

    Every write to the storage that a call, or a call inside it, can
    make. *)
Inductive prim : State -> State -> Prop :=
| prim_baseURI x st : prim st (set_baseTokenURI x st)
| prim_flag b st : prim st (set_useJsonExtension b st)
| prim_settings enabled price maxPerAddress st :
    is_uint256 price -> is_uint256 maxPerAddress ->
    prim st (set_publicMint enabled price maxPerAddress st)
| prim_royalty recipient feeBps st :
    0 <= feeBps <= 1000 -> prim st (set_royalty recipient feeBps st)
| prim_paused b st : prim st (set_paused b st)
| prim_credit account quantity st :
    0 < quantity -> mintsOf st account + quantity <= MAX_UINT256 ->
    prim st (set_mintsPerAddress
               (<[account := mintsOf st account + quantity]> (mintsPerAddress st)) st)
| prim_mint to st :
    to <> 0 -> _ownerOf st (_nextTokenId st) = 0 -> _nextTokenId st + 1 <= MAX_UINT256 ->
    prim st (set_owners (<[_nextTokenId st := to]> (_owners st))
               (set_nextTokenId (_nextTokenId st + 1) st))
| prim_transfer tokenId to st :
    _ownerOf st tokenId <> 0 -> to <> 0 ->
    prim st (set_owners (<[tokenId := to]> (_owners st)) st)
| prim_ownership newOwner st : prim st (set_owner newOwner st).

Inductive prims : State -> State -> Prop :=
| prims_refl st : prims st st
| prims_step st st' st'' : prims st st' -> prim st' st'' -> prims st st''.

(** ** The deployment of the test-suite *)

Definition OWNER : address := 100.
Definition ADDR1 : address := 101.
Definition BASE_URI : string := "https://api.test.com/metadata/".

Definition deployed : State :=
  constructor OWNER "Test NFT Collection" "TNC" 1000 BASE_URI OWNER 500 true.

(** The signers of the test-suite are externally owned accounts. *)
Definition asOwner : Env := mkEnv OWNER 0 (fun _ _ _ => quiet).
Definition asAddr1 : Env := mkEnv ADDR1 0 (fun _ _ _ => quiet).
Definition addr1Paying (value : Z) : Env := mkEnv ADDR1 value (fun _ _ _ => quiet).

(** ** States used as examples *)

(** The deployment after the owner has minted tokens 1, 2 and 3 to
    [ADDR1]. *)
Definition minted_three : State :=
  set_owners (<[3 := ADDR1]> (<[2 := ADDR1]> (<[1 := ADDR1]> ∅)))
    (set_nextTokenId 4 deployed).

(** Public minting switched on as in the test-suite: 0.01 ether a piece, at
    most 5 per address. *)
Definition publicOpen : State := set_publicMint true (ether / 100) 5 deployed.

(** [ADDR1] has bought tokens 1 and 2. *)
Definition addr1Bought : State :=
  set_mintsPerAddress (<[ADDR1 := 2]> ∅)
    (set_owners (<[2 := ADDR1]> (<[1 := ADDR1]> ∅)) (set_nextTokenId 3 publicOpen)).

(** A collection of three tokens: as deployed, after the owner has minted
    all of them to [ADDR1], and with public minting switched on. *)
Definition smallDeployed : State :=
  constructor OWNER "Test NFT Collection" "TNC" 3 BASE_URI OWNER 500 true.

Definition smallSoldOut : State :=
  set_owners (<[3 := ADDR1]> (<[2 := ADDR1]> (<[1 := ADDR1]> ∅)))
    (set_nextTokenId 4 smallDeployed).

Definition smallOpen : State := set_publicMint true (ether / 100) 5 smallDeployed.

(** ** A recipient that calls back

    [ATTACKER] is a contract.  When it is handed token 1 it has
    [accomplice] (itself, or a second contract [HELPER]) buy two tokens
    through [publicMint], and acknowledges; it only acknowledges every
    other token, as does [HELPER]. *)
Definition ATTACKER : address := 666.
Definition HELPER : address := 667.

Definition reentering (accomplice : address) (to : address) (tokenId : Z) (st : State)
    : Reaction :=
  if (to =? ATTACKER) && (tokenId =? 1)
  then mkReaction [DoCall accomplice (2 * ether / 100) (PublicMint 2)] true
  else quiet.

Definition attacker : Env := mkEnv ATTACKER (3 * ether / 100) (reentering ATTACKER).
Definition attackerWithHelper : Env := mkEnv ATTACKER (3 * ether / 100) (reentering HELPER).

(** The collection of three tokens after [attacker] has called
    [publicMint(3)]: five tokens exist. *)
Definition oversold : State :=
  set_mintsPerAddress (<[ATTACKER := 5]> ∅)
    (set_owners
       (<[5 := ATTACKER]> (<[4 := ATTACKER]> (<[3 := ATTACKER]> (<[2 := ATTACKER]>
          (<[1 := ATTACKER]> ∅)))))
       (set_nextTokenId 6 smallOpen)).

(** ** Predicates on states *)

(** A state and a later one that differ at most in the token holders and
    the next-id counter. *)
Definition minted_from (st st' : State) : Prop :=
  st' = set_owners (_owners st') (set_nextTokenId (_nextTokenId st') st).

(** What every reachable state satisfies: the counter is at least 1 and
    the ids in use are those below the counter. *)
Definition invariant (st : State) : Prop :=
  1 <= _nextTokenId st
  /\ forall t, _ownerOf st t <> 0 <-> 1 <= t < _nextTokenId st.

(** Every stored integer is in the range of its Solidity type. *)
Definition well_typed (st : State) : Prop :=
  is_uint256 (_nextTokenId st) /\ is_uint256 (maxSupply st)
  /\ is_uint256 (publicMintPrice st) /\ is_uint256 (maxMintsPerAddress st)
  /\ is_uint96 (royaltyFeeBps st)
  /\ forall account, is_uint256 (mintsOf st account).

(** The book-keeping of reachable states: no holder entry is the zero
    address, there are as many holder entries as the counter has handed
    out ids, and no token carries an override. *)
Definition accounting (st : State) : Prop :=
  (forall t, _owners st !! t <> Some 0)
  /\ Z.of_nat (size (_owners st)) = _nextTokenId st - 1
  /\ _tokenURIs st = ∅.

(** From [st] to [st'] the counter has moved up by at least [k], and by
    at least [k] more than any address's public-mint count, none of which
    has gone down. *)
Definition ahead (k : Z) (st st' : State) : Prop :=
  _nextTokenId st + k <= _nextTokenId st'
  /\ forall account,
       mintsOf st account <= mintsOf st' account
       /\ _nextTokenId st - mintsOf st account + k <= _nextTokenId st' - mintsOf st' account.

(** ** Predicates on calls and recipients *)

Definition is_SetBaseURI (c : Call) : Prop :=
  match c with SetBaseURI _ => True | _ => False end.

Definition is_SetJsonExtension (c : Call) : Prop :=
  match c with SetJsonExtension _ => True | _ => False end.

Definition is_SetRoyaltyInfo (c : Call) : Prop :=
  match c with SetRoyaltyInfo _ _ => True | _ => False end.

(** The recipients of [env] take no action when [to] is handed a token. *)
Definition passive (env : Env) (to : address) : Prop :=
  forall tokenId st, actions (onERC721Received env to tokenId st) = [].

(** [to] is an externally owned account, or a contract that acknowledges
    every token and does nothing else. *)
Definition acknowledges (env : Env) (to : address) : Prop :=
  forall tokenId st, onERC721Received env to tokenId st = quiet.

(** No hook in [env] makes a call of the kind [P]. *)
Definition no_nested (P : Call -> Prop) (env : Env) : Prop :=
  forall to tokenId st sender value c,
    In (DoCall sender value c) (actions (onERC721Received env to tokenId st)) -> ~ P c.

(** The part [f] of the storage is written by the calls of the kind [P]
    only. *)
Definition written_by {A : Type} (f : State -> A) (P : Call -> Prop) : Prop :=
  (forall x st, ~ P (SetBaseURI x) -> f (set_baseTokenURI x st) = f st)
  /\ (forall b st, ~ P (SetJsonExtension b) -> f (set_useJsonExtension b st) = f st)
  /\ (forall enabled price maxPerAddress st,
        ~ P (SetPublicMintSettings enabled price maxPerAddress) ->
        f (set_publicMint enabled price maxPerAddress st) = f st)
  /\ (forall recipient feeBps st,
        ~ P (SetRoyaltyInfo recipient feeBps) -> f (set_royalty recipient feeBps st) = f st)
  /\ (forall b st, f (set_paused b st) = f st)
  /\ (forall m st, f (set_mintsPerAddress m st) = f st)
  /\ (forall v st, f (set_nextTokenId v st) = f st)
  /\ (forall m st, f (set_owners m st) = f st)
  /\ (forall o st, f (set_owner o st) = f st).

(** ** Ether

    The contract's account is its storage together with its ether
    balance. *)
Record Account : Type := mkAccount {
  storage : State;
  balance : Z
}.

(** How a call of [withdraw] ends: the account afterwards together with the
    recipient and the amount of the transfer, the revert of one of the two
    guards, or the failure of the ether transfer itself. *)
Inductive Withdrawal : Type :=
| Paid (acc : Account) (recipient : address) (amount : Z)
| Refused (e : Error)
| TransferFailed.

(** [ownerAccepts] tells whether [payable(owner()).transfer(balance)] goes
    through (an externally owned account always accepts); the 2300 gas that
    [transfer] forwards leave the recipient no room to call back. *)
Definition withdraw (env : Env) (ownerAccepts : bool) (acc : Account) : Withdrawal :=
  match onlyOwner env (storage acc) with
  | Revert e => Refused e
  | Ok _ =>
      let balance_ := balance acc in
      match require (0 <? balance_) "No funds to withdraw" with
      | Revert e => Refused e
      | Ok _ =>
          if ownerAccepts
          then Paid (mkAccount (storage acc) 0) (_owner (storage acc)) balance_
          else TransferFailed
      end
  end.

(** ** Decimal numerals *)

(** The value of a character as a decimal digit. *)
Definition digit_value (c : Ascii.ascii) : option Z :=
  let n := Z.of_nat (Ascii.nat_of_ascii c) in
  if (48 <=? n) && (n <=? 57) then Some (n - 48) else None.

(** Reading a decimal numeral, most significant digit first; [acc] is the
    value of the digits read so far. *)
Fixpoint parseDecimal_from (acc : Z) (s : string) : option Z :=
  match s with
  | EmptyString => Some acc
  | String c s' =>
      match digit_value c with
      | Some d => parseDecimal_from (10 * acc + d) s'
      | None => None
      end
  end.

(** The inverse of [toString]: a non-empty string of decimal digits, read
    as a number. *)
Definition parseDecimal (s : string) : option Z :=
  match s with
  | EmptyString => None
  | _ => parseDecimal_from 0 s
  end.

(** * Proofs *)

(** ** Resolution *)

Lemma length_zero_empty (s : string) : Nat.eqb (String.length s) 0 = true <-> s = EmptyString.
Proof.
  destruct s as [|a s]; simpl; split; intro H; try reflexivity; discriminate.
Qed.

Lemma length_nonzero_nonempty (s : string) : Nat.eqb (String.length s) 0 = false <-> s <> EmptyString.
Proof.
  destruct s as [|a s]; simpl; split; intro H; try discriminate; try reflexivity.
  now contradiction H.
Qed.

Lemma length_positive (s : string) : Nat.ltb 0 (String.length s) = negb (Nat.eqb (String.length s) 0).
Proof. destruct s; reflexivity. Qed.

Lemma requireOwned_existing st t :
  _ownerOf st t <> 0 -> _requireOwned st t = Ok (_ownerOf st t).
Proof.
  intro H. unfold _requireOwned. destruct (decide (_ownerOf st t = 0)); [contradiction|reflexivity].
Qed.

Lemma requireOwned_missing st t :
  _ownerOf st t = 0 -> _requireOwned st t = Revert (ERC721NonexistentToken t).
Proof.
  intro H. unfold _requireOwned. destruct (decide (_ownerOf st t = 0)); [reflexivity|contradiction].
Qed.

(** What the contract's own code does with the answer of the storage
    extension, whatever that answer is. *)
Lemma tokenURI_of_parent st t parentURI :
  _ownerOf st t <> 0 ->
  ERC721URIStorage_tokenURI st t = Ok parentURI ->
  tokenURI st t =
    Ok (if Nat.eqb (String.length (_baseURI st)) 0 then parentURI
        else if String.eqb parentURI (_baseURI st +:+ toString t) then defaultURI st t
        else parentURI).
Proof.
  intros Hex Hp. unfold tokenURI. rewrite requireOwned_existing by assumption. simpl.
  rewrite Hp. simpl.
  destruct (Nat.eqb (String.length (_baseURI st)) 0); [reflexivity|].
  unfold keccak256_eqb, encodePacked2, encodePacked3, defaultURI.
  destruct (String.eqb parentURI (_baseURI st +:+ toString t)); simpl; [|reflexivity].
  destruct (useJsonExtension st); reflexivity.
Qed.

(** The storage extension always answers for an existing token. *)
Lemma parent_answers st t :
  _ownerOf st t <> 0 -> exists parentURI, ERC721URIStorage_tokenURI st t = Ok parentURI.
Proof.
  intro Hex. unfold ERC721URIStorage_tokenURI, ERC721_tokenURI.
  rewrite requireOwned_existing by assumption. simpl.
  destruct (Nat.eqb (String.length (_baseURI st)) 0); [eauto|].
  destruct (Nat.ltb 0 (String.length (default EmptyString (_tokenURIs st !! t)))); [eauto|].
  destruct (Nat.ltb 0 (String.length (_baseURI st))); eauto.
Qed.

Lemma parent_no_override st t :
  _ownerOf st t <> 0 -> _tokenURIs st !! t = None ->
  ERC721URIStorage_tokenURI st t =
    Ok (if Nat.eqb (String.length (_baseURI st)) 0 then EmptyString else _baseURI st +:+ toString t).
Proof.
  intros Hex Hno. unfold ERC721URIStorage_tokenURI, ERC721_tokenURI.
  rewrite requireOwned_existing by assumption. simpl. rewrite Hno. simpl.
  rewrite length_positive.
  destruct (Nat.eqb (String.length (_baseURI st)) 0); reflexivity.
Qed.

Lemma tokenURI_no_override st t :
  _ownerOf st t <> 0 -> _tokenURIs st !! t = None -> _baseURI st <> EmptyString ->
  tokenURI st t = Ok (defaultURI st t).
Proof.
  intros Hex Hno Hbase.
  rewrite (tokenURI_of_parent st t _ Hex (parent_no_override st t Hex Hno)).
  apply length_nonzero_nonempty in Hbase. rewrite Hbase.
  now rewrite String.eqb_refl.
Qed.

(** Resolution of an existing token without override, in full. *)
Lemma tokenURI_plain st t :
  _ownerOf st t <> 0 -> _tokenURIs st !! t = None ->
  tokenURI st t =
    Ok (if Nat.eqb (String.length (_baseURI st)) 0 then EmptyString else defaultURI st t).
Proof.
  intros Hex Hno.
  rewrite (tokenURI_of_parent st t _ Hex (parent_no_override st t Hex Hno)).
  destruct (Nat.eqb (String.length (_baseURI st)) 0); [reflexivity|].
  now rewrite String.eqb_refl.
Qed.

(** ** The administrative setters *)

Lemma onlyOwner_owner env st :
  msg_sender env = _owner st -> onlyOwner env st = Ok tt.
Proof.
  intro H. unfold onlyOwner. destruct (decide (_owner st = msg_sender env)); congruence.
Qed.

Lemma onlyOwner_other env st :
  msg_sender env <> _owner st ->
  onlyOwner env st = Revert (OwnableUnauthorizedAccount (msg_sender env)).
Proof.
  intro H. unfold onlyOwner. destruct (decide (_owner st = msg_sender env)); congruence.
Qed.

Lemma setBaseURI_owner env x st :
  msg_sender env = _owner st -> setBaseURI env x st = Ok (set_baseTokenURI x st).
Proof. intro H. unfold setBaseURI. now rewrite onlyOwner_owner. Qed.

Lemma setBaseURI_other env x st :
  msg_sender env <> _owner st ->
  setBaseURI env x st = Revert (OwnableUnauthorizedAccount (msg_sender env)).
Proof. intro H. unfold setBaseURI. now rewrite onlyOwner_other. Qed.

Lemma setJsonExtension_owner env b st :
  msg_sender env = _owner st -> setJsonExtension env b st = Ok (set_useJsonExtension b st).
Proof. intro H. unfold setJsonExtension. now rewrite onlyOwner_owner. Qed.

Lemma setJsonExtension_other env b st :
  msg_sender env <> _owner st ->
  setJsonExtension env b st = Revert (OwnableUnauthorizedAccount (msg_sender env)).
Proof. intro H. unfold setJsonExtension. now rewrite onlyOwner_other. Qed.

(** ** Guards *)

(** Inversion of a successful monadic step. *)
Lemma bind_ok {A B : Type} (m : result A) (k : A -> result B) (b : B) :
  bind m k = Ok b -> exists a, m = Ok a /\ k a = Ok b.
Proof. destruct m as [a|e]; simpl; intro H; [eauto | discriminate]. Qed.

Ltac bind_inv H :=
  let a := fresh "a" in
  let Ha := fresh "Hstep" in
  apply bind_ok in H; destruct H as [a [Ha H]].

Lemma require_ok cond message u : require cond message = Ok u -> cond = true.
Proof. unfold require. destruct cond; [reflexivity|discriminate]. Qed.

Lemma checked_add_ok a b c : checked_add a b = Ok c -> c = a + b /\ a + b <= MAX_UINT256.
Proof.
  unfold checked_add. destruct (a + b <=? MAX_UINT256) eqn:E; [|discriminate].
  intro H. injection H as <-. split; [reflexivity | lia].
Qed.

Lemma checked_sub_ok a b c : checked_sub a b = Ok c -> c = a - b /\ b <= a.
Proof.
  unfold checked_sub. destruct (b <=? a) eqn:E; [|discriminate].
  intro H. injection H as <-. split; [reflexivity | lia].
Qed.

Lemma checked_mul_ok a b c : checked_mul a b = Ok c -> c = a * b /\ a * b <= MAX_UINT256.
Proof.
  unfold checked_mul. destruct (a * b <=? MAX_UINT256) eqn:E; [|discriminate].
  intro H. injection H as <-. split; [reflexivity | lia].
Qed.

Lemma checked_add_pass a b : a + b <= MAX_UINT256 -> checked_add a b = Ok (a + b).
Proof. intro H. unfold checked_add. destruct (a + b <=? MAX_UINT256) eqn:E; [reflexivity|lia]. Qed.

Lemma onlyOwner_ok env st u : onlyOwner env st = Ok u -> msg_sender env = _owner st.
Proof.
  unfold onlyOwner. destruct (decide (_owner st = msg_sender env)); [congruence|discriminate].
Qed.

Lemma whenNotPaused_ok st u : whenNotPaused st = Ok u -> _paused st = false.
Proof. unfold whenNotPaused. destruct (_paused st); [discriminate|reflexivity]. Qed.

Lemma requireSupply_ok st q u :
  requireSupply st q = Ok u ->
  _nextTokenId st + q <= MAX_UINT256 /\ 1 <= _nextTokenId st + q
  /\ _nextTokenId st + q - 1 <= maxSupply st.
Proof.
  unfold requireSupply. intro H.
  bind_inv H. apply checked_add_ok in Hstep as [-> Hle].
  bind_inv H. apply checked_sub_ok in Hstep as [-> Hge].
  apply require_ok in H. lia.
Qed.

Lemma requireSupply_pass st q :
  _nextTokenId st + q <= MAX_UINT256 -> 1 <= _nextTokenId st + q ->
  _nextTokenId st + q - 1 <= maxSupply st ->
  requireSupply st q = Ok tt.
Proof.
  intros H1 H2 H3. unfold requireSupply, checked_add, checked_sub, require.
  destruct (_nextTokenId st + q <=? MAX_UINT256) eqn:E1; [|lia]. simpl.
  destruct (1 <=? _nextTokenId st + q) eqn:E2; [|lia]. simpl.
  destruct (_nextTokenId st + q - 1 <=? maxSupply st) eqn:E3; [reflexivity|lia].
Qed.

Lemma requireSupply_exceeds st q :
  _nextTokenId st + q <= MAX_UINT256 -> 1 <= _nextTokenId st + q ->
  maxSupply st < _nextTokenId st + q - 1 ->
  requireSupply st q = Revert (Reason SUPPLY_MSG).
Proof.
  intros H1 H2 H3. unfold requireSupply, checked_add, checked_sub, require.
  destruct (_nextTokenId st + q <=? MAX_UINT256) eqn:E1; [|lia]. simpl.
  destruct (1 <=? _nextTokenId st + q) eqn:E2; [|lia]. simpl.
  destruct (_nextTokenId st + q - 1 <=? maxSupply st) eqn:E3; [lia|reflexivity].
Qed.

Lemma requireSupply_overflow st q :
  MAX_UINT256 < _nextTokenId st + q ->
  requireSupply st q = Revert (Panic ARITHMETIC_PANIC).
Proof.
  intros H1. unfold requireSupply, checked_add.
  destruct (_nextTokenId st + q <=? MAX_UINT256) eqn:E1; [lia|reflexivity].
Qed.

Lemma ownerOf_insert (m : gmap Z Z) st st' t to t' :
  _owners st = m ->
  _ownerOf (set_owners (<[t := to]> m) st') t' =
    if decide (t = t') then to else _ownerOf st t'.
Proof.
  intros <-. unfold _ownerOf. simpl. rewrite lookup_insert.
  destruct (decide (t = t')); reflexivity.
Qed.

Lemma mintsOf_insert (m : gmap Z Z) st st' a v b :
  mintsPerAddress st = m ->
  mintsOf (set_mintsPerAddress (<[a := v]> m) st') b =
    if decide (a = b) then v else mintsOf st b.
Proof.
  intros <-. unfold mintsOf. simpl. rewrite lookup_insert.
  destruct (decide (a = b)); reflexivity.
Qed.

(** ** Calls, with the calls made from inside them

    Whatever holds of every write to the storage holds of every call.  [D k]
    relates a state to a later one; [k] counts the tokens minted in between
    against the public mints credited, so that [D] may speak of what a
    complete call does although [publicMint] credits the caller before its
    loop.  [allowed] singles out the calls looked at; the hooks make
    allowed calls only. *)
Section Calls.
Variable D : Z -> State -> State -> Prop.
Variable allowed : Call -> Prop.

Hypothesis D_refl : forall st, D 0 st st.
Hypothesis D_trans :
  forall j k st st1 st2, D j st st1 -> D k st1 st2 -> D (j + k) st st2.
Hypothesis D_weaken : forall k st st', 0 <= k -> D k st st' -> D 0 st st'.

Hypothesis D_baseURI :
  forall x st, allowed (SetBaseURI x) -> D 0 st (set_baseTokenURI x st).
Hypothesis D_flag :
  forall b st, allowed (SetJsonExtension b) -> D 0 st (set_useJsonExtension b st).
Hypothesis D_settings :
  forall enabled price maxPerAddress st,
    allowed (SetPublicMintSettings enabled price maxPerAddress) ->
    D 0 st (set_publicMint enabled price maxPerAddress st).
Hypothesis D_royalty :
  forall recipient feeBps st,
    allowed (SetRoyaltyInfo recipient feeBps) -> feeBps <= 1000 ->
    D 0 st (set_royalty recipient feeBps st).
Hypothesis D_paused : forall b st, D 0 st (set_paused b st).
Hypothesis D_credit :
  forall account quantity st,
    0 < quantity -> mintsOf st account + quantity <= MAX_UINT256 ->
    D (- quantity) st
      (set_mintsPerAddress
         (<[account := mintsOf st account + quantity]> (mintsPerAddress st)) st).
Hypothesis D_mint :
  forall to st,
    to <> 0 -> _ownerOf st (_nextTokenId st) = 0 -> _nextTokenId st + 1 <= MAX_UINT256 ->
    D 1 st (set_owners (<[_nextTokenId st := to]> (_owners st))
              (set_nextTokenId (_nextTokenId st + 1) st)).
Hypothesis D_transfer :
  forall tokenId to st,
    _ownerOf st tokenId <> 0 -> to <> 0 ->
    D 0 st (set_owners (<[tokenId := to]> (_owners st)) st).
Hypothesis D_ownership : forall newOwner st, D 0 st (set_owner newOwner st).

Variable hooks : address -> Z -> State -> Reaction.
Hypothesis hooks_allowed :
  forall to tokenId st sender value c,
    In (DoCall sender value c) (actions (hooks to tokenId st)) -> allowed c.

Variable call : Nested.
Hypothesis call_D :
  forall sender value c st, allowed c -> D 0 st (call (mkEnv sender value hooks) c st).

Lemma transfer_D tokenId to st : D 0 st (transfer tokenId to st).
Proof.
  unfold transfer.
  destruct (decide (_ownerOf st tokenId = 0)); [apply D_refl|].
  destruct (decide (to = 0)); [apply D_refl|].
  now apply D_transfer.
Qed.

Lemma perform_D sender value a st :
  (forall s v c, a = DoCall s v c -> allowed c) ->
  D 0 st (perform call (mkEnv sender value hooks) a st).
Proof.
  intro Ha. destruct a as [s v c|tokenId to|newOwner]; simpl.
  - apply call_D. now apply (Ha s v c).
  - apply transfer_D.
  - apply D_ownership.
Qed.

Lemma actions_D sender value l : forall st,
  (forall s v c, In (DoCall s v c) l -> allowed c) ->
  D 0 st (fold_left (fun s a => perform call (mkEnv sender value hooks) a s) l st).
Proof.
  induction l as [|a l IH]; intros st Hl; simpl; [apply D_refl|].
  change 0 with (0 + 0).
  apply D_trans with (st1 := perform call (mkEnv sender value hooks) a st).
  - apply perform_D. intros s v c ->. apply (Hl s v c). now left.
  - apply IH. intros s v c Hin. apply (Hl s v c). now right.
Qed.

(** One round of the loop: the counter moves, the holder is recorded,
    the recipient acts. *)
Lemma round_D sender value to st next st' :
  checked_add (_nextTokenId st) 1 = Ok next ->
  _safeMint call (mkEnv sender value hooks) to (_nextTokenId st) (set_nextTokenId next st)
    = Ok st' ->
  D 1 st st'.
Proof.
  intros Hn H. apply checked_add_ok in Hn as [-> Hle].
  unfold _safeMint in H.
  destruct (decide (to = 0)) as [|Hto]; [discriminate|].
  bind_inv H.
  destruct (decide (_ownerOf (set_nextTokenId (_nextTokenId st + 1) st) (_nextTokenId st) = 0))
    as [Hfree|]; [|discriminate].
  cbv zeta in H.
  destruct (accepts _); [|discriminate].
  injection H as <-.
  change 1 with (1 + 0).
  eapply D_trans.
  - apply (D_mint to st Hto Hfree Hle).
  - apply actions_D. intros s v c Hin. exact (hooks_allowed _ _ _ _ _ _ Hin).
Qed.

Lemma mint_loop_D sender value to count : forall st st',
  mint_loop call (mkEnv sender value hooks) to count st = Ok st' ->
  D (Z.of_nat count) st st'.
Proof.
  induction count as [|count IH]; intros st st' H.
  - simpl in H. injection H as <-. apply D_refl.
  - cbn [mint_loop] in H. bind_inv H. rename a into next. bind_inv H. rename a into st1.
    replace (Z.of_nat (S count)) with (1 + Z.of_nat count) by lia.
    eapply D_trans.
    + exact (round_D _ _ _ _ _ _ Hstep Hstep0).
    + now apply IH.
Qed.

Lemma exec_in_D sender value c st st' :
  allowed c -> exec_in call (mkEnv sender value hooks) c st = Ok st' -> D 0 st st'.
Proof.
  intros Hc H. destruct c as [to q|q|x|b|enabled price maxPerAddress|recipient feeBps| |];
    simpl in H.
  - unfold mint_in in H. bind_inv H. bind_inv H.
    apply mint_loop_D in H. apply (D_weaken (Z.of_nat (Z.to_nat q))); [lia|assumption].
  - unfold publicMint_in in H.
    bind_inv H. bind_inv H. bind_inv H. apply require_ok in Hstep1.
    bind_inv H. bind_inv H. rename a3 into minted.
    apply checked_add_ok in Hstep3 as [-> Hfit].
    bind_inv H. bind_inv H. bind_inv H.
    apply mint_loop_D in H. simpl in H.
    assert (Hq : 0 < q) by lia.
    replace 0 with (- q + Z.of_nat (Z.to_nat q)) by lia.
    eapply D_trans; [|exact H].
    now apply D_credit.
  - unfold setBaseURI in H. bind_inv H. injection H as <-. now apply D_baseURI.
  - unfold setJsonExtension in H. bind_inv H. injection H as <-. now apply D_flag.
  - unfold setPublicMintSettings in H. bind_inv H. injection H as <-. now apply D_settings.
  - unfold setRoyaltyInfo in H. bind_inv H. bind_inv H. apply require_ok in Hstep0.
    injection H as <-. apply D_royalty; [assumption|lia].
  - unfold pause in H. bind_inv H. bind_inv H. injection H as <-. apply D_paused.
  - unfold unpause in H. bind_inv H. bind_inv H. injection H as <-. apply D_paused.
Qed.
End Calls.

(** ** Every call is a sequence of single writes *)

Lemma prims_one st st' : prim st st' -> prims st st'.
Proof. intro H. eapply prims_step; [apply prims_refl|exact H]. Qed.

Lemma prims_trans st st1 st2 : prims st st1 -> prims st1 st2 -> prims st st2.
Proof.
  intros H1 H2. induction H2 as [|st1 st2 st3 H2 IH H3]; [assumption|].
  eapply prims_step; [apply IH; assumption|exact H3].
Qed.

Lemma valid_hooks_calls (hooks : address -> Z -> State -> Reaction) :
  (forall to tokenId st, Forall valid_action (actions (hooks to tokenId st))) ->
  forall to tokenId st sender value c,
    In (DoCall sender value c) (actions (hooks to tokenId st)) -> valid_call c.
Proof.
  intros Hh to tokenId st sender value c Hin.
  specialize (Hh to tokenId st). rewrite Forall_forall in Hh.
  apply list_elem_of_In, Hh in Hin. simpl in Hin. tauto.
Qed.

Lemma exec_in_prims (hooks : address -> Z -> State -> Reaction) (call : Nested) :
  (forall to tokenId st, Forall valid_action (actions (hooks to tokenId st))) ->
  (forall sender value c st, valid_call c -> prims st (call (mkEnv sender value hooks) c st)) ->
  forall sender value c st st',
    valid_call c -> exec_in call (mkEnv sender value hooks) c st = Ok st' -> prims st st'.
Proof.
  intros Hh Hcall sender value c st st' Hc H.
  refine (exec_in_D (fun _ => prims) valid_call _ _ _ _ _ _ _ _ _ _ _ _ hooks
            (valid_hooks_calls hooks Hh) call Hcall sender value c st st' Hc H).
  - apply prims_refl.
  - intros _ _. apply prims_trans.
  - intros _ s s' _ Hp. exact Hp.
  - intros x s _. apply prims_one, prim_baseURI.
  - intros b s _. apply prims_one, prim_flag.
  - intros e p m s [Hp Hm]. apply prims_one, prim_settings; assumption.
  - intros r f s [_ Hf] Hle. apply prims_one, prim_royalty. unfold is_uint96 in Hf. lia.
  - intros b s. apply prims_one, prim_paused.
  - intros a q s Hq Hle. apply prims_one, prim_credit; assumption.
  - intros to s H1 H2 H3. apply prims_one, prim_mint; assumption.
  - intros t to s H1 H2. apply prims_one, prim_transfer; assumption.
  - intros o s. apply prims_one, prim_ownership.
Qed.

Lemma transact_at_prims (hooks : address -> Z -> State -> Reaction) :
  (forall to tokenId st, Forall valid_action (actions (hooks to tokenId st))) ->
  forall depth sender value c st,
    valid_call c -> prims st (transact_at depth (mkEnv sender value hooks) c st).
Proof.
  intros Hh depth. induction depth as [|depth IH]; intros sender value c st Hc.
  - apply prims_refl.
  - cbn [transact_at].
    destruct (exec_in (transact_at depth) (mkEnv sender value hooks) c st) as [st'|e] eqn:E;
      [|apply prims_refl].
    exact (exec_in_prims hooks (transact_at depth) Hh IH sender value c st st' Hc E).
Qed.

Lemma exec_prims env c st st' :
  valid_env env -> valid_call c -> exec env c st = Ok st' -> prims st st'.
Proof.
  intros (_ & _ & Hh) Hc H. destruct env as [sender value hooks]. simpl in Hh.
  unfold exec in H.
  exact (exec_in_prims hooks nested Hh (transact_at_prims hooks Hh CALL_DEPTH)
           sender value c st st' Hc H).
Qed.

Lemma step_prims st st' : step st st' -> prims st st'.
Proof.
  intro H. destruct H as [env c st Henv Hc|st tokenId to H1 H2|st newOwner].
  - unfold transact. destruct (exec env c st) as [st'|e] eqn:E; [|apply prims_refl].
    exact (exec_prims env c st st' Henv Hc E).
  - apply prims_one, prim_transfer; assumption.
  - apply prims_one, prim_ownership.
Qed.

Lemma steps_prims st st' : steps st st' -> prims st st'.
Proof.
  intro H. induction H as [|st st' st'' _ IH Hs]; [apply prims_refl|].
  exact (prims_trans _ _ _ IH (step_prims _ _ Hs)).
Qed.

(** What every single write preserves, every run preserves. *)
Lemma prims_preserve (P : State -> Prop) :
  (forall st st', P st -> prim st st' -> P st') ->
  forall st st', prims st st' -> P st -> P st'.
Proof.
  intros HP st st' H. induction H as [|st st' st'' _ IH Hp]; [tauto|].
  intro H0. exact (HP _ _ (IH H0) Hp).
Qed.

Lemma prims_relate (R : State -> State -> Prop) :
  (forall st, R st st) ->
  (forall st st' st'', R st st' -> prim st' st'' -> R st st'') ->
  forall st st', prims st st' -> R st st'.
Proof.
  intros Hrefl Hstep st st' H. induction H as [|st st' st'' _ IH Hp]; [apply Hrefl|].
  exact (Hstep _ _ _ IH Hp).
Qed.

Lemma steps_invariant (P : State -> Prop) :
  (forall st st', P st -> step st st' -> P st') ->
  forall st0 st, steps st0 st -> P st0 -> P st.
Proof.
  intros HP st0 st H. induction H as [|st st' st'' _ IH Hs]; [tauto|].
  intro H0. exact (HP _ _ (IH H0) Hs).
Qed.

Lemma reachable_steps st st' : reachable st -> steps st st' -> reachable st'.
Proof.
  intros Hr H. induction H as [|st st' st'' _ IH Hs]; [assumption|].
  exact (reachable_step _ _ (IH Hr) Hs).
Qed.

Lemma reachable_prims st :
  reachable st ->
  exists deployer name symbol maxSupply_ baseURI recipient feeBps flag,
    is_uint256 maxSupply_
    /\ prims (constructor deployer name symbol maxSupply_ baseURI recipient feeBps flag) st.
Proof.
  intro H. induction H as [d n s m b r f fl Hm|st st' _ IH Hs].
  - exists d, n, s, m, b, r, f, fl. split; [assumption|apply prims_refl].
  - destruct IH as (d & n & s & m & b & r & f & fl & Hm & Hp).
    exists d, n, s, m, b, r, f, fl. split; [assumption|].
    exact (prims_trans _ _ _ Hp (step_prims _ _ Hs)).
Qed.

(** ** The invariant of reachable states *)

Lemma ownerOf_zero_absent st t :
  (forall t', _owners st !! t' <> Some 0) -> _ownerOf st t = 0 -> _owners st !! t = None.
Proof.
  intros Hnz H. unfold _ownerOf in H. specialize (Hnz t).
  destruct (_owners st !! t) as [o|]; [|reflexivity]. simpl in H. congruence.
Qed.

Lemma ownerOf_nonzero_present st t :
  _ownerOf st t <> 0 -> exists o, _owners st !! t = Some o.
Proof.
  unfold _ownerOf. destruct (_owners st !! t) as [o|]; [eauto|]. simpl. congruence.
Qed.

Lemma sound_prim st st' :
  invariant st /\ accounting st -> prim st st' -> invariant st' /\ accounting st'.
Proof.
  intros [[I1 I2] (A1 & A2 & A3)] H.
  destruct H as [x st|b st|e p m st Hp Hm|r f st Hf|b st|a q st Hq Hle
                 |to st Hto Hfree Hmax|t to st Hex Hto|o st];
    try (split; [split|split; [|split]]; assumption).
  - (* a token is minted *)
    split; [split|split; [|split]]; simpl.
    + lia.
    + intro t. rewrite (ownerOf_insert _ st) by reflexivity.
      destruct (decide (_nextTokenId st = t)) as [<-|Hne].
      * split; [lia|intros _; exact Hto].
      * change (_ownerOf st t <> 0 <-> 1 <= t < _nextTokenId st + 1).
        rewrite (I2 t). lia.
    + intro t. rewrite lookup_insert. destruct (decide (_nextTokenId st = t)).
      * intro H. injection H as H. contradiction.
      * apply A1.
    + rewrite map_size_insert_None by (apply ownerOf_zero_absent; assumption). lia.
    + exact A3.
  - (* a token changes hands *)
    split; [split|split; [|split]]; simpl.
    + exact I1.
    + intro t'. rewrite (ownerOf_insert _ st) by reflexivity.
      destruct (decide (t = t')) as [<-|Hne]; [|apply I2].
      split; [intros _; now apply I2|intros _; exact Hto].
    + intro t'. rewrite lookup_insert. destruct (decide (t = t')).
      * intro H. injection H as H. contradiction.
      * apply A1.
    + destruct (ownerOf_nonzero_present st t Hex) as [o Ho].
      rewrite map_size_insert_Some by (rewrite Ho; eauto). exact A2.
    + exact A3.
Qed.

Lemma sound_init deployer name symbol maxSupply_ baseURI recipient feeBps flag :
  let st := constructor deployer name symbol maxSupply_ baseURI recipient feeBps flag in
  invariant st /\ accounting st.
Proof.
  simpl. split; [split|split; [|split]]; simpl.
  - lia.
  - intro t. unfold _ownerOf. simpl. rewrite lookup_empty. simpl. lia.
  - intro t. rewrite lookup_empty. discriminate.
  - rewrite map_size_empty. reflexivity.
  - reflexivity.
Qed.

Lemma reachable_sound st : reachable st -> invariant st /\ accounting st.
Proof.
  intro H. apply reachable_prims in H as (d & n & s & m & b & r & f & fl & _ & Hp).
  exact (prims_preserve _ sound_prim _ _ Hp (sound_init d n s m b r f fl)).
Qed.

Lemma reachable_invariant st : reachable st -> invariant st.
Proof. intro H. exact (proj1 (reachable_sound st H)). Qed.

Lemma reachable_accounting st : reachable st -> accounting st.
Proof. intro H. exact (proj2 (reachable_sound st H)). Qed.

(** No write lowers the counter, empties a holder entry or lowers a
    public-mint count; none touches the supply cap, the name or the
    symbol. *)
Lemma prim_monotone st st' :
  prim st st' ->
  _nextTokenId st <= _nextTokenId st'
  /\ (forall t, _ownerOf st t <> 0 -> _ownerOf st' t <> 0)
  /\ (forall account, mintsOf st account <= mintsOf st' account)
  /\ maxSupply st' = maxSupply st /\ _name st' = _name st /\ _symbol st' = _symbol st.
Proof.
  intro H.
  destruct H as [x st|b st|e p m st Hp Hm|r f st Hf|b st|a q st Hq Hle
                 |to st Hto Hfree Hmax|t to st Hex Hto|o st];
    (split; [simpl; lia|]); (split; [|split; [|simpl; tauto]]);
    try (intros t0 Ht0; exact Ht0); try (intro a0; unfold mintsOf; simpl; lia).
  - intro b. rewrite (mintsOf_insert _ st) by reflexivity.
    destruct (decide (a = b)) as [<-|]; lia.
  - intros t Ht. rewrite (ownerOf_insert _ st) by reflexivity.
    destruct (decide (_nextTokenId st = t)); assumption.
  - intros t' Ht. rewrite (ownerOf_insert _ st) by reflexivity.
    destruct (decide (t = t')); assumption.
Qed.

Lemma prims_monotone st st' :
  prims st st' ->
  _nextTokenId st <= _nextTokenId st'
  /\ (forall t, _ownerOf st t <> 0 -> _ownerOf st' t <> 0)
  /\ (forall account, mintsOf st account <= mintsOf st' account)
  /\ maxSupply st' = maxSupply st /\ _name st' = _name st /\ _symbol st' = _symbol st.
Proof.
  apply (prims_relate (fun st st' =>
    _nextTokenId st <= _nextTokenId st'
    /\ (forall t, _ownerOf st t <> 0 -> _ownerOf st' t <> 0)
    /\ (forall account, mintsOf st account <= mintsOf st' account)
    /\ maxSupply st' = maxSupply st /\ _name st' = _name st /\ _symbol st' = _symbol st)).
  - intro s. split; [lia|]. split; [tauto|]. split; [intro; lia|tauto].
  - intros s s' s'' (H1 & H2 & H3 & H4 & H5 & H6) Hp.
    apply prim_monotone in Hp as (P1 & P2 & P3 & P4 & P5 & P6).
    split; [lia|]. split; [intros t Ht; apply P2, H2, Ht|].
    split; [intro a; specialize (H3 a); specialize (P3 a); lia|].
    split; [congruence|]. split; congruence.
Qed.

Lemma step_monotone st st' :
  step st st' ->
  _nextTokenId st <= _nextTokenId st'
  /\ (forall t, _ownerOf st t <> 0 -> _ownerOf st' t <> 0)
  /\ (forall account, mintsOf st account <= mintsOf st' account)
  /\ maxSupply st' = maxSupply st /\ _name st' = _name st /\ _symbol st' = _symbol st.
Proof. intro H. exact (prims_monotone _ _ (step_prims _ _ H)). Qed.

(** The storage stays in the range of its types. *)
Lemma well_typed_prim st st' : well_typed st -> prim st st' -> well_typed st'.
Proof.
  intros (W1 & W2 & W3 & W4 & W5 & W6) H.
  destruct H as [x st|b st|e p m st Hp Hm|r f st Hf|b st|a q st Hq Hle
                 |to st Hto Hfree Hmax|t to st Hex Hto|o st];
    try exact (conj W1 (conj W2 (conj W3 (conj W4 (conj W5 W6))))).
  - exact (conj W1 (conj W2 (conj Hp (conj Hm (conj W5 W6))))).
  - refine (conj W1 (conj W2 (conj W3 (conj W4 (conj _ W6))))).
    simpl. unfold is_uint96, MAX_UINT96. lia.
  - refine (conj W1 (conj W2 (conj W3 (conj W4 (conj W5 _))))).
    intro b. rewrite (mintsOf_insert _ st) by reflexivity.
    destruct (decide (a = b)) as [<-|]; [|apply W6].
    specialize (W6 a). unfold is_uint256 in *. lia.
  - refine (conj _ (conj W2 (conj W3 (conj W4 (conj W5 W6))))).
    simpl. unfold is_uint256 in *. lia.
Qed.

Lemma well_typed_init deployer name symbol maxSupply_ baseURI recipient feeBps flag :
  is_uint256 maxSupply_ -> is_uint96 feeBps ->
  well_typed (constructor deployer name symbol maxSupply_ baseURI recipient feeBps flag).
Proof.
  intros Hm Hf. unfold well_typed. simpl.
  split; [unfold is_uint256, MAX_UINT256; lia|].
  split; [exact Hm|].
  split; [unfold is_uint256; split; vm_compute; discriminate|].
  split; [unfold is_uint256, MAX_UINT256; lia|].
  split; [exact Hf|].
  intro a. unfold mintsOf. simpl. rewrite lookup_empty. simpl.
  unfold is_uint256, MAX_UINT256. lia.
Qed.

Lemma well_typed_step st st' : well_typed st -> step st st' -> well_typed st'.
Proof.
  intros H Hs. exact (prims_preserve _ well_typed_prim _ _ (step_prims _ _ Hs) H).
Qed.

(** The counter fits in 256 bits, whatever the deployment. *)
Lemma counter_fits_prim st st' :
  _nextTokenId st <= MAX_UINT256 -> prim st st' -> _nextTokenId st' <= MAX_UINT256.
Proof.
  intros H Hp.
  destruct Hp as [x st|b st|e p m st Hp Hm|r f st Hf|b st|a q st Hq Hle
                 |to st Hto Hfree Hmax|t to st Hex Hto|o st]; simpl; assumption.
Qed.

Lemma reachable_counter_fits st : reachable st -> _nextTokenId st <= MAX_UINT256.
Proof.
  intro H. apply reachable_prims in H as (d & n & s & m & b & r & f & fl & _ & Hp).
  apply (prims_preserve _ counter_fits_prim _ _ Hp). simpl. unfold MAX_UINT256. lia.
Qed.

(** The royalty fee is the one of the deployment or at most 1000. *)
Lemma prims_royalty_fee st0 st :
  prims st0 st -> royaltyFeeBps st = royaltyFeeBps st0 \/ 0 <= royaltyFeeBps st <= 1000.
Proof.
  apply (prims_relate (fun st0 st =>
    royaltyFeeBps st = royaltyFeeBps st0 \/ 0 <= royaltyFeeBps st <= 1000)).
  - intro s. now left.
  - intros s s' s'' H Hp.
    destruct Hp as [x st'|b st'|e p m st' Hp Hm|r f st' Hf|b st'|a q st' Hq Hle
                   |to st' Hto Hfree Hmax|t to st' Hex Hto|o st']; simpl; try exact H.
    now right.
Qed.

(** ** Tokens minted against public mints credited *)

Lemma ahead_refl st : ahead 0 st st.
Proof. split; [lia|intro; lia]. Qed.

Lemma ahead_trans j k st st1 st2 : ahead j st st1 -> ahead k st1 st2 -> ahead (j + k) st st2.
Proof.
  intros [H1 H2] [H3 H4]. split; [lia|].
  intro a. specialize (H2 a). specialize (H4 a). lia.
Qed.

Ltac ahead_frame := intros; split; [simpl; lia|intro; unfold mintsOf; simpl; lia].

Lemma exec_in_ahead (hooks : address -> Z -> State -> Reaction) (call : Nested) :
  (forall sender value c st, True -> ahead 0 st (call (mkEnv sender value hooks) c st)) ->
  forall sender value c st st',
    exec_in call (mkEnv sender value hooks) c st = Ok st' -> ahead 0 st st'.
Proof.
  intros Hcall sender value c st st' H.
  refine (exec_in_D ahead (fun _ => True) ahead_refl ahead_trans _ _ _ _ _ _ _ _ _ _ hooks
            (fun _ _ _ _ _ _ _ => I) call Hcall sender value c st st' I H);
    try ahead_frame.
  - intros k s s' Hk [H1 H2]. split; [lia|]. intro a. specialize (H2 a). lia.
  - intros a q s Hq Hle. split; [simpl; lia|].
    intro b. rewrite (mintsOf_insert _ s) by reflexivity. simpl.
    destruct (decide (a = b)) as [<-|]; lia.
Qed.

Lemma mint_loop_ahead (hooks : address -> Z -> State -> Reaction) (call : Nested) :
  (forall sender value c st, True -> ahead 0 st (call (mkEnv sender value hooks) c st)) ->
  forall sender value to count st st',
    mint_loop call (mkEnv sender value hooks) to count st = Ok st' ->
    ahead (Z.of_nat count) st st'.
Proof.
  intros Hcall sender value to count st st' H.
  refine (mint_loop_D ahead (fun _ => True) ahead_refl ahead_trans _ _ _ hooks
            (fun _ _ _ _ _ _ _ => I) call Hcall sender value to count st st' H);
    ahead_frame.
Qed.

Lemma transact_at_ahead (hooks : address -> Z -> State -> Reaction) depth :
  forall sender value c st,
    True -> ahead 0 st (transact_at depth (mkEnv sender value hooks) c st).
Proof.
  induction depth as [|depth IH]; intros sender value c st _; [apply ahead_refl|].
  cbn [transact_at].
  destruct (exec_in (transact_at depth) (mkEnv sender value hooks) c st) as [st'|e] eqn:E;
    [|apply ahead_refl].
  exact (exec_in_ahead hooks (transact_at depth) IH sender value c st st' E).
Qed.

Lemma step_ahead st st' : step st st' -> ahead 0 st st'.
Proof.
  intro H. destruct H as [env c st Henv Hc|st tokenId to H1 H2|st newOwner].
  - destruct env as [sender value hooks]. unfold transact, exec.
    destruct (exec_in nested (mkEnv sender value hooks) c st) as [st'|e] eqn:E.
    + exact (exec_in_ahead hooks nested (transact_at_ahead hooks CALL_DEPTH)
               sender value c st st' E).
    + apply ahead_refl.
  - ahead_frame.
  - ahead_frame.
Qed.

(** In a reachable state nobody is credited with more public mints than
    the counter has handed out ids. *)
Lemma reachable_credited st :
  reachable st -> forall account, 0 <= mintsOf st account <= _nextTokenId st - 1.
Proof.
  intro H. induction H as [d n s m b r f fl Hm|st st' _ IH Hs]; intro a.
  - unfold mintsOf. simpl. rewrite lookup_empty. simpl. lia.
  - destruct (step_ahead _ _ Hs) as [_ Ha].
    specialize (IH a). specialize (Ha a). lia.
Qed.

(** ** What a call leaves alone *)

Lemma exec_in_keeps {A : Type} (f : State -> A) (P : Call -> Prop)
    (hooks : address -> Z -> State -> Reaction) (call : Nested) :
  written_by f P ->
  (forall to tokenId st sender value c,
      In (DoCall sender value c) (actions (hooks to tokenId st)) -> ~ P c) ->
  (forall sender value c st, ~ P c -> f (call (mkEnv sender value hooks) c st) = f st) ->
  forall sender value c st st',
    ~ P c -> exec_in call (mkEnv sender value hooks) c st = Ok st' -> f st' = f st.
Proof.
  intros (W1 & W2 & W3 & W4 & W5 & W6 & W7 & W8 & W9) Hh Hcall sender value c st st' Hc H.
  refine (exec_in_D (fun _ st st' => f st' = f st) (fun c => ~ P c)
            _ _ _ _ _ _ _ _ _ _ _ _ hooks Hh call Hcall sender value c st st' Hc H).
  - reflexivity.
  - intros _ _ s s1 s2 H1 H2. congruence.
  - intros _ s s' _ H1. exact H1.
  - intros x s Hx. now apply W1.
  - intros b s Hb. now apply W2.
  - intros e p m s Hs. now apply W3.
  - intros r fee s Hr _. now apply W4.
  - intros b s. apply W5.
  - intros a q s _ _. apply W6.
  - intros to s _ _ _. rewrite W8. apply W7.
  - intros t to s _ _. apply W8.
  - intros o s. apply W9.
Qed.

Lemma transact_at_keeps {A : Type} (f : State -> A) (P : Call -> Prop)
    (hooks : address -> Z -> State -> Reaction) :
  written_by f P ->
  (forall to tokenId st sender value c,
      In (DoCall sender value c) (actions (hooks to tokenId st)) -> ~ P c) ->
  forall depth sender value c st,
    ~ P c -> f (transact_at depth (mkEnv sender value hooks) c st) = f st.
Proof.
  intros Hw Hh depth. induction depth as [|depth IH]; intros sender value c st Hc;
    [reflexivity|].
  cbn [transact_at].
  destruct (exec_in (transact_at depth) (mkEnv sender value hooks) c st) as [st'|e] eqn:E;
    [|reflexivity].
  exact (exec_in_keeps f P hooks (transact_at depth) Hw Hh IH sender value c st st' Hc E).
Qed.

(** A part of the storage stays as it is through every call that is not
    of a kind that writes it and makes no such call from a hook. *)
Lemma transact_keeps {A : Type} (f : State -> A) (P : Call -> Prop) env c st :
  written_by f P -> no_nested P env -> ~ P c -> f (transact env c st) = f st.
Proof.
  intros Hw Hh Hc. destruct env as [sender value hooks]. unfold no_nested in Hh. simpl in Hh.
  unfold transact, exec.
  destruct (exec_in nested (mkEnv sender value hooks) c st) as [st'|e] eqn:E; [|reflexivity].
  exact (exec_in_keeps f P hooks nested Hw Hh
           (transact_at_keeps f P hooks Hw Hh CALL_DEPTH) sender value c st st' Hc E).
Qed.

Lemma baseURI_written : written_by _baseTokenURI is_SetBaseURI.
Proof.
  repeat (split; [intros; try reflexivity|]); try (intros; reflexivity).
  simpl in *. tauto.
Qed.

Lemma flag_written : written_by useJsonExtension is_SetJsonExtension.
Proof.
  repeat (split; [intros; try reflexivity|]); try (intros; reflexivity).
  simpl in *. tauto.
Qed.

Lemma royalty_written :
  written_by (fun st => (royaltyRecipient st, royaltyFeeBps st)) is_SetRoyaltyInfo.
Proof.
  repeat (split; [intros; try reflexivity|]); try (intros; reflexivity).
  simpl in *. tauto.
Qed.

(** ** Minting to a recipient that does not call back *)

Lemma acknowledges_passive env to : acknowledges env to -> passive env to.
Proof. intros H tokenId st. now rewrite H. Qed.

Lemma safeMint_ok call env to t st st' :
  passive env to ->
  _safeMint call env to t st = Ok st' ->
  to <> 0 /\ _paused st = false /\ _ownerOf st t = 0
  /\ st' = set_owners (<[t := to]> (_owners st)) st.
Proof.
  intro Hpas. unfold _safeMint, whenNotPaused.
  destruct (decide (to = 0)); [discriminate|].
  destruct (_paused st); [discriminate|]. simpl.
  destruct (decide (_ownerOf st t = 0)); [|discriminate].
  cbv zeta. rewrite !Hpas. simpl.
  destruct (accepts _); [|discriminate].
  intro H. injection H as <-. repeat split; assumption.
Qed.

Lemma safeMint_pass call env to t st :
  acknowledges env to ->
  to <> 0 -> _paused st = false -> _ownerOf st t = 0 ->
  _safeMint call env to t st = Ok (set_owners (<[t := to]> (_owners st)) st).
Proof.
  intros Hack H1 H2 H3. unfold _safeMint, whenNotPaused.
  destruct (decide (to = 0)); [contradiction|].
  rewrite H2. simpl.
  destruct (decide (_ownerOf st t = 0)); [|contradiction].
  cbv zeta. rewrite !Hack. reflexivity.
Qed.

Lemma minted_from_refl st : minted_from st st.
Proof. unfold minted_from. destruct st; reflexivity. Qed.

(** The effect of [count] successful rounds of the minting loop: the counter
    advances by [count], the ids from the old counter on, fresh before, go to
    the recipient, every other id keeps its holder, and nothing else moves. *)
Lemma mint_loop_ok call env to count : forall st st',
  passive env to ->
  mint_loop call env to count st = Ok st' ->
  _nextTokenId st' = _nextTokenId st + Z.of_nat count
  /\ minted_from st st'
  /\ (forall t, _nextTokenId st <= t < _nextTokenId st + Z.of_nat count ->
                _ownerOf st t = 0 /\ _ownerOf st' t = to /\ to <> 0)
  /\ (forall t, ~ (_nextTokenId st <= t < _nextTokenId st + Z.of_nat count) ->
                _ownerOf st' t = _ownerOf st t).
Proof.
  induction count as [|n IH]; intros st st' Hpas H.
  - simpl in H. injection H as <-.
    split; [lia|]. split; [apply minted_from_refl|]. split.
    + intros t Ht. lia.
    + reflexivity.
  - cbn [mint_loop] in H. bind_inv H. apply checked_add_ok in Hstep as [-> Hle].
    bind_inv H. apply safeMint_ok in Hstep as (Hto & Hp & Hfresh & ->); [|assumption].
    apply IH in H as (Hnext & Hframe & Hnew & Hold); [|assumption].
    simpl in Hnext, Hnew, Hold.
    split; [lia|]. split; [|split].
    + unfold minted_from in *. rewrite Hframe. destruct st; reflexivity.
    + intros t Ht.
      destruct (decide (t = _nextTokenId st)) as [->|Hne].
      * split; [exact Hfresh|]. split; [|exact Hto].
        rewrite Hold by lia. rewrite (ownerOf_insert _ st) by reflexivity.
        destruct (decide (_nextTokenId st = _nextTokenId st)); [reflexivity|contradiction].
      * destruct (Hnew t ltac:(lia)) as (H0 & H1 & H2).
        rewrite (ownerOf_insert _ st) in H0 by reflexivity.
        destruct (decide (_nextTokenId st = t)); [lia|].
        repeat split; assumption.
    + intros t Ht. rewrite Hold by lia. rewrite (ownerOf_insert _ st) by reflexivity.
      destruct (decide (_nextTokenId st = t)); [lia|reflexivity].
Qed.

(** The loop does run to completion when nothing stands in its way. *)
Lemma mint_loop_pass call env to count : forall st,
  acknowledges env to ->
  to <> 0 -> _paused st = false ->
  _nextTokenId st + Z.of_nat count <= MAX_UINT256 ->
  (forall t, _nextTokenId st <= t < _nextTokenId st + Z.of_nat count -> _ownerOf st t = 0) ->
  exists st', mint_loop call env to count st = Ok st'.
Proof.
  induction count as [|n IH]; intros st Hack Hto Hp Hmax Hfresh.
  - eexists. reflexivity.
  - cbn [mint_loop]. rewrite checked_add_pass by lia. simpl.
    rewrite safeMint_pass; try assumption; [|apply Hfresh; simpl; lia]. simpl.
    apply IH; try assumption; simpl; try lia.
    intros t Ht. rewrite (ownerOf_insert _ st) by reflexivity.
    destruct (decide (_nextTokenId st = t)); [lia|].
    apply Hfresh. lia.
Qed.

(** The loop of [n + m] rounds is the loop of [n] rounds followed by the
    loop of [m] rounds. *)
Lemma mint_loop_app call env to n : forall m st,
  mint_loop call env to (n + m) st =
    let* st1 := mint_loop call env to n st in mint_loop call env to m st1.
Proof.
  induction n as [|n IH]; intros m st; [reflexivity|].
  cbn [Nat.add mint_loop].
  destruct (checked_add (_nextTokenId st) 1) as [next|e]; [|reflexivity]. simpl.
  destruct (_safeMint call env to (_nextTokenId st) (set_nextTokenId next st)) as [st1|e];
    [|reflexivity].
  simpl. apply IH.
Qed.

Lemma minted_from_fields st st' :
  minted_from st st' ->
  maxSupply st' = maxSupply st /\ _paused st' = _paused st /\ _owner st' = _owner st
  /\ _baseTokenURI st' = _baseTokenURI st /\ useJsonExtension st' = useJsonExtension st
  /\ _tokenURIs st' = _tokenURIs st /\ mintsPerAddress st' = mintsPerAddress st
  /\ royaltyRecipient st' = royaltyRecipient st /\ royaltyFeeBps st' = royaltyFeeBps st
  /\ publicMintPrice st' = publicMintPrice st
  /\ maxMintsPerAddress st' = maxMintsPerAddress st
  /\ publicMintEnabled st' = publicMintEnabled st.
Proof.
  unfold minted_from. intro H. rewrite H. simpl. repeat split.
Qed.

(** What every successful [mint] has passed. *)
Lemma mint_guards env to q st st' :
  mint env to q st = Ok st' ->
  msg_sender env = _owner st
  /\ _nextTokenId st + q <= MAX_UINT256 /\ 1 <= _nextTokenId st + q
  /\ _nextTokenId st + q - 1 <= maxSupply st
  /\ mint_loop nested env to (Z.to_nat q) st = Ok st'.
Proof.
  intro H. unfold mint, mint_in in H.
  bind_inv H. apply onlyOwner_ok in Hstep.
  bind_inv H. apply requireSupply_ok in Hstep0 as (H1 & H2 & H3).
  repeat (split; [assumption|]). assumption.
Qed.

(** What every successful [publicMint] has passed. *)
Lemma publicMint_guards env q st st' :
  publicMint env q st = Ok st' ->
  _paused st = false /\ publicMintEnabled st = true /\ 0 < q
  /\ _nextTokenId st + q <= MAX_UINT256
  /\ _nextTokenId st + q - 1 <= maxSupply st
  /\ mintsOf st (msg_sender env) + q <= maxMintsPerAddress st
  /\ mintsOf st (msg_sender env) + q <= MAX_UINT256
  /\ publicMintPrice st * q <= MAX_UINT256
  /\ publicMintPrice st * q <= msg_value env
  /\ mint_loop nested env (msg_sender env) (Z.to_nat q)
       (set_mintsPerAddress
          (<[msg_sender env := mintsOf st (msg_sender env) + q]> (mintsPerAddress st)) st)
     = Ok st'.
Proof.
  intro H. unfold publicMint, publicMint_in in H.
  bind_inv H. apply whenNotPaused_ok in Hstep.
  bind_inv H. apply require_ok in Hstep0.
  bind_inv H. apply require_ok in Hstep1. apply Z.ltb_lt in Hstep1.
  bind_inv H. apply requireSupply_ok in Hstep2 as (H1 & H2 & H3).
  bind_inv H. apply checked_add_ok in Hstep2 as [-> Hadd].
  bind_inv H. apply require_ok in Hstep2. apply Z.leb_le in Hstep2.
  bind_inv H. apply checked_mul_ok in Hstep3 as [-> Hmul].
  bind_inv H. apply require_ok in Hstep3. apply Z.leb_le in Hstep3.
  repeat (split; [assumption|]). assumption.
Qed.

(** What a successful [mint] to a recipient that does not call back has
    done. *)
Lemma mint_ok env to q st st' :
  passive env to ->
  0 <= q -> mint env to q st = Ok st' ->
  msg_sender env = _owner st
  /\ _nextTokenId st + q - 1 <= maxSupply st
  /\ _nextTokenId st' = _nextTokenId st + q
  /\ minted_from st st'
  /\ (forall t, _nextTokenId st <= t < _nextTokenId st + q ->
                _ownerOf st t = 0 /\ _ownerOf st' t = to /\ to <> 0)
  /\ (forall t, ~ (_nextTokenId st <= t < _nextTokenId st + q) ->
                _ownerOf st' t = _ownerOf st t).
Proof.
  intros Hpas Hq H. apply mint_guards in H as (Hown & _ & _ & H3 & H).
  apply mint_loop_ok in H; [|assumption]. rewrite Z2Nat.id in H by assumption.
  destruct H as (Hn & Hf & Hnew & Hold).
  split; [exact Hown|]. split; [exact H3|]. split; [exact Hn|].
  split; [exact Hf|]. split; [exact Hnew|exact Hold].
Qed.

(** What a successful [publicMint] by a caller that does not call back has
    done. *)
Lemma publicMint_ok env q st st' :
  passive env (msg_sender env) ->
  publicMint env q st = Ok st' ->
  _nextTokenId st' = _nextTokenId st + q
  /\ minted_from
       (set_mintsPerAddress
          (<[msg_sender env := mintsOf st (msg_sender env) + q]> (mintsPerAddress st)) st) st'
  /\ (forall t, _nextTokenId st <= t < _nextTokenId st + q ->
                _ownerOf st t = 0 /\ _ownerOf st' t = msg_sender env /\ msg_sender env <> 0)
  /\ (forall t, ~ (_nextTokenId st <= t < _nextTokenId st + q) ->
                _ownerOf st' t = _ownerOf st t).
Proof.
  intros Hpas H.
  apply publicMint_guards in H as (_ & _ & Hq & _ & _ & _ & _ & _ & _ & H).
  apply mint_loop_ok in H; [|assumption]. rewrite Z2Nat.id in H by lia.
  destruct H as (Hn & Hf & Hnew & Hold).
  split; [exact Hn|]. split; [exact Hf|]. split; [exact Hnew|exact Hold].
Qed.

(** ** The supply check *)

Lemma totalMinted_value st :
  1 <= _nextTokenId st -> totalMinted st = Ok (_nextTokenId st - 1).
Proof.
  intro H. unfold totalMinted, checked_sub.
  destruct (1 <=? _nextTokenId st) eqn:E; [reflexivity|lia].
Qed.

Lemma mint_exceeding_fails env to q st :
  maxSupply st < _nextTokenId st - 1 + q ->
  exists e, mint env to q st = Revert e.
Proof.
  intros Hex. destruct (mint env to q st) as [st'|e] eqn:E; [|eauto].
  apply mint_guards in E as (_ & _ & _ & Hsup & _). lia.
Qed.

Lemma publicMint_exceeding_fails env q st :
  maxSupply st < _nextTokenId st - 1 + q ->
  exists e, publicMint env q st = Revert e.
Proof.
  intros Hex. destruct (publicMint env q st) as [st'|e] eqn:E; [|eauto].
  apply publicMint_guards in E as (_ & _ & _ & _ & Hsup & _). lia.
Qed.

Lemma mint_within_supply_succeeds env to q st :
  invariant st -> acknowledges env to ->
  msg_sender env = _owner st -> to <> 0 -> _paused st = false ->
  0 <= q -> _nextTokenId st - 1 + q <= maxSupply st ->
  _nextTokenId st + q <= MAX_UINT256 ->
  exists st', mint env to q st = Ok st'.
Proof.
  intros (I1 & I2) Hack Hown Hto Hp Hq Hsup Hfit. unfold mint, mint_in.
  rewrite onlyOwner_owner by assumption. simpl.
  rewrite requireSupply_pass by lia. simpl.
  apply mint_loop_pass; try assumption.
  - rewrite Z2Nat.id by assumption. lia.
  - intros t Ht.
    destruct (decide (_ownerOf st t = 0)) as [H0|Hn]; [exact H0|].
    apply I2 in Hn. lia.
Qed.

(** Once the counter has passed the supply cap (or reached it), no call
    moves it. *)
Lemma sold_out_exec env c st st' :
  maxSupply st <= _nextTokenId st - 1 ->
  exec env c st = Ok st' ->
  _nextTokenId st' = _nextTokenId st /\ maxSupply st' = maxSupply st.
Proof.
  intros Hsold H. unfold exec in H.
  destruct c as [to q|q|x|b|enabled price maxPerAddress|recipient feeBps| |]; simpl in H.
  - apply mint_guards in H as (_ & _ & _ & Hsup & H).
    replace (Z.to_nat q) with O in H by lia. simpl in H. injection H as <-. now split.
  - apply publicMint_guards in H as (_ & _ & Hq & _ & Hsup & _). lia.
  - unfold setBaseURI in H. bind_inv H. injection H as <-. now split.
  - unfold setJsonExtension in H. bind_inv H. injection H as <-. now split.
  - unfold setPublicMintSettings in H. bind_inv H. injection H as <-. now split.
  - unfold setRoyaltyInfo in H. bind_inv H. bind_inv H. injection H as <-. now split.
  - unfold pause in H. bind_inv H. bind_inv H. injection H as <-. now split.
  - unfold unpause in H. bind_inv H. bind_inv H. injection H as <-. now split.
Qed.

Lemma sold_out_step st st' :
  maxSupply st <= _nextTokenId st - 1 -> step st st' ->
  _nextTokenId st' = _nextTokenId st /\ maxSupply st' = maxSupply st.
Proof.
  intros Hsold H. destruct H as [env c st Henv Hc|st tokenId to H1 H2|st newOwner];
    [|now split|now split].
  unfold transact. destruct (exec env c st) as [st'|e] eqn:E; [|now split].
  exact (sold_out_exec env c st st' Hsold E).
Qed.

(** ** Royalties *)

Lemma setRoyaltyInfo_owner env r fee st :
  msg_sender env = _owner st ->
  setRoyaltyInfo env r fee st =
    if fee <=? 1000 then Ok (set_royalty r fee st) else Revert (Reason ROYALTY_MSG).
Proof.
  intro H. unfold setRoyaltyInfo, require. rewrite onlyOwner_owner by assumption. simpl.
  destruct (fee <=? 1000); reflexivity.
Qed.

Lemma setRoyaltyInfo_ok env r fee st st' :
  setRoyaltyInfo env r fee st = Ok st' ->
  msg_sender env = _owner st /\ fee <= 1000 /\ st' = set_royalty r fee st.
Proof.
  intro H. unfold setRoyaltyInfo in H.
  bind_inv H. apply onlyOwner_ok in Hstep.
  bind_inv H. apply require_ok in Hstep0. apply Z.leb_le in Hstep0.
  injection H as <-. split; [exact Hstep|]. split; [exact Hstep0|reflexivity].
Qed.

(** ** The example states are reachable *)

Lemma quiet_valid sender value :
  is_address sender -> is_uint256 value -> valid_env (mkEnv sender value (fun _ _ _ => quiet)).
Proof.
  intros Hs Hv. split; [exact Hs|]. split; [exact Hv|]. intros to tokenId st. constructor.
Qed.

Lemma asOwner_valid : valid_env asOwner.
Proof.
  apply quiet_valid; [unfold is_address|unfold is_uint256]; split; vm_compute; discriminate.
Qed.

Lemma addr1Paying_valid value : is_uint256 value -> valid_env (addr1Paying value).
Proof.
  intro H. apply quiet_valid; [|exact H]. unfold is_address; split; vm_compute; discriminate.
Qed.

Lemma reentering_valid accomplice value :
  is_address accomplice -> is_uint256 value ->
  valid_env (mkEnv ATTACKER value (reentering accomplice)).
Proof.
  intros Ha Hv. split; [unfold is_address; split; vm_compute; discriminate|].
  split; [exact Hv|]. intros to tokenId st. unfold reentering. simpl.
  destruct ((to =? ATTACKER) && (tokenId =? 1)); simpl; [|constructor].
  constructor; [|constructor]. simpl.
  split; [exact Ha|]. split; unfold is_uint256; split; vm_compute; discriminate.
Qed.

Lemma reachable_deployed : reachable deployed.
Proof. apply reachable_init. unfold is_uint256, MAX_UINT256. lia. Qed.

Lemma reachable_minted_three : reachable minted_three.
Proof.
  apply (reachable_step deployed); [exact reachable_deployed|].
  apply (step_call asOwner (Mint ADDR1 3) deployed); [exact asOwner_valid|].
  unfold valid_call, is_address, is_uint256. split; split; vm_compute; discriminate.
Qed.

Lemma steps_deployed_publicOpen : steps deployed publicOpen.
Proof.
  apply (steps_step deployed deployed); [apply steps_refl|].
  apply (step_call asOwner (SetPublicMintSettings true (ether / 100) 5) deployed);
    [exact asOwner_valid|].
  unfold valid_call, is_uint256. split; split; vm_compute; discriminate.
Qed.

Lemma reachable_publicOpen : reachable publicOpen.
Proof. exact (reachable_steps _ _ reachable_deployed steps_deployed_publicOpen). Qed.

Lemma step_publicOpen_addr1Bought : step publicOpen addr1Bought.
Proof.
  apply (step_call (addr1Paying (2 * ether / 100)) (PublicMint 2) publicOpen).
  - apply addr1Paying_valid. unfold is_uint256. split; vm_compute; discriminate.
  - unfold valid_call, is_uint256. split; vm_compute; discriminate.
Qed.

Lemma reachable_addr1Bought : reachable addr1Bought.
Proof. exact (reachable_step _ _ reachable_publicOpen step_publicOpen_addr1Bought). Qed.

Lemma reachable_smallDeployed : reachable smallDeployed.
Proof. apply reachable_init. unfold is_uint256, MAX_UINT256. lia. Qed.

Lemma reachable_smallSoldOut : reachable smallSoldOut.
Proof.
  apply (reachable_step smallDeployed); [exact reachable_smallDeployed|].
  apply (step_call asOwner (Mint ADDR1 3) smallDeployed); [exact asOwner_valid|].
  unfold valid_call, is_address, is_uint256. split; split; vm_compute; discriminate.
Qed.

Lemma reachable_smallOpen : reachable smallOpen.
Proof.
  apply (reachable_step smallDeployed); [exact reachable_smallDeployed|].
  apply (step_call asOwner (SetPublicMintSettings true (ether / 100) 5) smallDeployed);
    [exact asOwner_valid|].
  unfold valid_call, is_uint256. split; split; vm_compute; discriminate.
Qed.

Lemma attacker_valid : valid_env attacker.
Proof.
  apply reentering_valid; [unfold is_address|unfold is_uint256]; split; vm_compute; discriminate.
Qed.

Lemma step_smallOpen_oversold : step smallOpen oversold.
Proof.
  apply (step_call attacker (PublicMint 3) smallOpen); [exact attacker_valid|].
  unfold valid_call, is_uint256. split; vm_compute; discriminate.
Qed.

Lemma reachable_oversold : reachable oversold.
Proof. exact (reachable_step _ _ reachable_smallOpen step_smallOpen_oversold). Qed.

(** ** The test-suite, replayed on the model *)

Example toString_samples :
  toString 0 = "0" /\ toString 7 = "7" /\ toString 1000 = "1000"
  /\ toString 1234567890 = "1234567890"
  /\ String.length (toString MAX_UINT256) = 78%nat.
Proof. repeat split. Qed.

Example test_deployment :
  maxSupply deployed = 1000 /\ _owner deployed = OWNER /\ nextTokenId deployed = 1
  /\ royaltyInfo deployed 1 10000 = Ok (OWNER, 500).
Proof. repeat split. Qed.

Example test_minting :
  mint asOwner ADDR1 3 deployed = Ok minted_three
  /\ mint asAddr1 ADDR1 1 deployed = Revert (OwnableUnauthorizedAccount ADDR1)
  /\ mint asOwner ADDR1 (1000 + 1) deployed = Revert (Reason "Exceeds maximum supply")
  /\ _ownerOf minted_three 1 = ADDR1 /\ _ownerOf minted_three 2 = ADDR1
  /\ _ownerOf minted_three 3 = ADDR1.
Proof. repeat split. Qed.

Example test_public_minting :
  setPublicMintSettings asOwner true (ether / 100) 5 deployed = Ok publicOpen
  /\ publicMint (addr1Paying (2 * ether / 100)) 2 publicOpen = Ok addr1Bought
  /\ mintsOf addr1Bought ADDR1 = 2 /\ _ownerOf addr1Bought 1 = ADDR1
  /\ _ownerOf addr1Bought 2 = ADDR1 /\ nextTokenId addr1Bought = 3
  /\ publicMint (addr1Paying (ether / 100)) 2 publicOpen =
       Revert (Reason "Insufficient payment")
  /\ publicMint (addr1Paying (6 * ether / 100)) 6 publicOpen =
       Revert (Reason "Exceeds max mints per address")
  /\ publicMint (addr1Paying (ether / 100)) 1 deployed =
       Revert (Reason "Public mint not enabled")
  /\ publicMint (addr1Paying (ether / 100)) 1 (set_paused true publicOpen) =
       Revert EnforcedPause.
Proof. repeat split. Qed.

Example test_metadata :
  tokenURI minted_three 1 = Ok "https://api.test.com/metadata/1.json"
  /\ tokenURI (set_baseTokenURI "https://api.newtest.com/metadata/" minted_three) 1 =
       Ok "https://api.newtest.com/metadata/1.json"
  /\ tokenURI (set_useJsonExtension false minted_three) 3 =
       Ok "https://api.test.com/metadata/3"
  /\ tokenURI minted_three 4 = Revert (ERC721NonexistentToken 4).
Proof. repeat split. Qed.

Example test_royalties :
  setRoyaltyInfo asOwner ADDR1 750 deployed = Ok (set_royalty ADDR1 750 deployed)
  /\ royaltyInfo (set_royalty ADDR1 750 deployed) 1 10000 = Ok (ADDR1, 750)
  /\ setRoyaltyInfo asOwner ADDR1 1001 deployed = Revert (Reason "Royalty fee too high").
Proof. repeat split. Qed.

(** The run of the recipient that calls back: [attacker] buys three tokens
    of a collection of three and ends up with five. *)
Example test_reentrant_sale :
  publicMint attacker 3 smallOpen = Ok oversold
  /\ nextTokenId oversold = 6 /\ maxSupply oversold = 3
  /\ mintsOf oversold ATTACKER = 5
  /\ mint asOwner ADDR1 0 oversold = Revert (Reason "Exceeds maximum supply").
Proof. repeat split. Qed.

Lemma deployed_mint_one :
  mint asOwner ADDR1 1 deployed =
    Ok (set_owners (<[1 := ADDR1]> ∅) (set_nextTokenId 2 deployed)).
Proof. reflexivity. Qed.

Lemma not_SetBaseURI c : (forall x, c <> SetBaseURI x) -> ~ is_SetBaseURI c.
Proof. intros H Hc. destruct c; try contradiction. now apply (H baseURI). Qed.

Lemma not_SetJsonExtension c : (forall b, c <> SetJsonExtension b) -> ~ is_SetJsonExtension c.
Proof. intros H Hc. destruct c; try contradiction. now apply (H useExtension). Qed.

Lemma not_SetRoyaltyInfo c : (forall r f, c <> SetRoyaltyInfo r f) -> ~ is_SetRoyaltyInfo c.
Proof. intros H Hc. destruct c; try contradiction. now apply (H recipient feeBps). Qed.

Lemma quiet_no_nested P sender value : no_nested P (mkEnv sender value (fun _ _ _ => quiet)).
Proof. intros to tokenId st s v c Hin. destruct Hin. Qed.

(** * Properties of the contract *)

(** C1: an existing token without override, under a non-empty base URI,
    resolves to base + decimal id + ".json" when the JSON-extension flag is
    set and to base + decimal id when it is not.  In the scenario of the
    test-suite (base "https://api.test.com/metadata/", flag true, token 1
    minted by the owner) token 1 resolves to
    "https://api.test.com/metadata/1.json", and once the owner has switched
    the flag off, to "https://api.test.com/metadata/1". *)
Theorem C1_default_resolution :
  (forall st t,
      _ownerOf st t <> 0 -> _tokenURIs st !! t = None -> _baseURI st <> EmptyString ->
      tokenURI st t =
        Ok (if useJsonExtension st then _baseURI st +:+ toString t +:+ ".json"
            else _baseURI st +:+ toString t))
  /\ (exists st1 st2,
        mint asOwner ADDR1 1 deployed = Ok st1
        /\ _baseURI st1 = "https://api.test.com/metadata/"
        /\ useJsonExtension st1 = true
        /\ _tokenURIs st1 !! 1 = None
        /\ tokenURI st1 1 = Ok "https://api.test.com/metadata/1.json"
        /\ setJsonExtension asOwner false st1 = Ok st2
        /\ tokenURI st2 1 = Ok "https://api.test.com/metadata/1").
Proof.
  split.
  - intros st t Hex Hno Hbase. exact (tokenURI_no_override st t Hex Hno Hbase).
  - eexists. eexists. rewrite deployed_mint_one.
    split; [reflexivity|]. repeat split; reflexivity.
Qed.

Lemma C1_default_resolution_witness :
  tokenURI (set_owners (<[1 := ADDR1]> ∅) (set_nextTokenId 2 deployed)) 1 =
    Ok "https://api.test.com/metadata/1.json".
Proof.
  apply (proj1 C1_default_resolution
           (set_owners (<[1 := ADDR1]> ∅) (set_nextTokenId 2 deployed)) 1).
  - vm_compute. discriminate.
  - reflexivity.
  - vm_compute. discriminate.
Defined.

(** C4: resolving a token that does not exist fails with NotFound
    ([ERC721NonexistentToken]), the error of the existence check reaching
    the caller as it is; in a reachable state the tokens that do not exist
    are those never minted, the ids outside [1, nextTokenId).  Resolving an
    existing token does not fail. *)
Theorem C4_missing_token_not_found :
  (forall st t,
      _ownerOf st t = 0 -> tokenURI st t = Revert (ERC721NonexistentToken t))
  /\ (forall st t e, _requireOwned st t = Revert e -> tokenURI st t = Revert e)
  /\ (forall st t,
        reachable st -> ~ (1 <= t < nextTokenId st) ->
        tokenURI st t = Revert (ERC721NonexistentToken t))
  /\ (forall st t, _ownerOf st t <> 0 -> exists uri, tokenURI st t = Ok uri)
  /\ (forall st t,
        reachable st -> 1 <= t < nextTokenId st -> exists uri, tokenURI st t = Ok uri).
Proof.
  assert (Hmiss : forall st t,
             _ownerOf st t = 0 -> tokenURI st t = Revert (ERC721NonexistentToken t)).
  { intros st t H. unfold tokenURI. now rewrite requireOwned_missing. }
  assert (Hex : forall st t, _ownerOf st t <> 0 -> exists uri, tokenURI st t = Ok uri).
  { intros st t H.
    destruct (parent_answers st t H) as [p Hp].
    rewrite (tokenURI_of_parent st t p H Hp). eauto. }
  split; [exact Hmiss|]. split; [|split; [|split; [exact Hex|]]].
  - intros st t e H. unfold tokenURI. now rewrite H.
  - intros st t Hr Ht. apply Hmiss.
    destruct (reachable_invariant st Hr) as (_ & I2).
    destruct (decide (_ownerOf st t = 0)) as [H0|Hn]; [exact H0|].
    apply I2 in Hn. contradiction.
  - intros st t Hr Ht. apply Hex.
    destruct (reachable_invariant st Hr) as (_ & I2). now apply I2.
Qed.

Lemma C4_missing_token_not_found_witness :
  tokenURI deployed 1 = Revert (ERC721NonexistentToken 1)
  /\ exists uri,
       tokenURI (set_owners (<[1 := ADDR1]> ∅) (set_nextTokenId 2 deployed)) 1 = Ok uri.
Proof.
  destruct C4_missing_token_not_found as (_ & _ & Hnever & Hexists & _).
  split.
  - apply (Hnever deployed 1 reachable_deployed). unfold nextTokenId. simpl. lia.
  - apply Hexists. vm_compute. discriminate.
Defined.

(** C5: an existing token without override, under an empty base URI,
    resolves to the empty string, whatever the JSON-extension flag is. *)
Theorem C5_empty_base_empty_uri :
  forall st t,
    _ownerOf st t <> 0 -> _tokenURIs st !! t = None -> _baseURI st = EmptyString ->
    tokenURI st t = Ok EmptyString
    /\ forall flag, tokenURI (set_useJsonExtension flag st) t = Ok EmptyString.
Proof.
  assert (Hgen : forall st t,
             _ownerOf st t <> 0 -> _tokenURIs st !! t = None -> _baseURI st = EmptyString ->
             tokenURI st t = Ok EmptyString).
  { intros st t Hex Hno Hbase.
    rewrite (tokenURI_of_parent st t _ Hex (parent_no_override st t Hex Hno)).
    apply length_zero_empty in Hbase. now rewrite Hbase. }
  intros st t Hex Hno Hbase. split.
  - now apply Hgen.
  - intro flag. now apply Hgen.
Qed.

Lemma C5_empty_base_empty_uri_witness :
  tokenURI (set_baseTokenURI EmptyString (set_owners (<[1 := ADDR1]> ∅) deployed)) 1 = Ok EmptyString.
Proof.
  apply (C5_empty_base_empty_uri
           (set_baseTokenURI EmptyString (set_owners (<[1 := ADDR1]> ∅) deployed)) 1).
  - vm_compute. discriminate.
  - reflexivity.
  - reflexivity.
Defined.

(** C6: called by anyone but the owning authority, [setBaseURI] and
    [setJsonExtension] fail with the authorization error and leave the
    stored base URI and flag (indeed the whole storage) as they were; called
    by the owning authority each succeeds and assigns the new value and
    nothing else, and later resolutions are computed from the new value,
    which stays in place until the same setter is called again, be it from
    outside or by a recipient from inside a minting call. *)
Theorem C6_setters_authority_gated :
  (forall env st newBase flag,
      msg_sender env <> _owner st ->
      setBaseURI env newBase st = Revert (OwnableUnauthorizedAccount (msg_sender env))
      /\ setJsonExtension env flag st = Revert (OwnableUnauthorizedAccount (msg_sender env))
      /\ transact env (SetBaseURI newBase) st = st
      /\ transact env (SetJsonExtension flag) st = st
      /\ _baseURI (transact env (SetBaseURI newBase) st) = _baseURI st
      /\ useJsonExtension (transact env (SetJsonExtension flag) st) = useJsonExtension st)
  /\ (forall env st newBase flag,
        msg_sender env = _owner st ->
        setBaseURI env newBase st = Ok (set_baseTokenURI newBase st)
        /\ setJsonExtension env flag st = Ok (set_useJsonExtension flag st)
        /\ _baseURI (transact env (SetBaseURI newBase) st) = newBase
        /\ useJsonExtension (transact env (SetBaseURI newBase) st) = useJsonExtension st
        /\ useJsonExtension (transact env (SetJsonExtension flag) st) = flag
        /\ _baseURI (transact env (SetJsonExtension flag) st) = _baseURI st
        /\ (forall t,
              _ownerOf st t <> 0 -> _tokenURIs st !! t = None ->
              tokenURI (transact env (SetBaseURI newBase) st) t =
                Ok (if Nat.eqb (String.length newBase) 0 then EmptyString
                    else if useJsonExtension st then newBase +:+ toString t +:+ ".json"
                    else newBase +:+ toString t)
              /\ tokenURI (transact env (SetJsonExtension flag) st) t =
                   Ok (if Nat.eqb (String.length (_baseURI st)) 0 then EmptyString
                       else if flag then _baseURI st +:+ toString t +:+ ".json"
                       else _baseURI st +:+ toString t)))
  /\ (forall env c st,
        ((forall x, c <> SetBaseURI x) -> no_nested is_SetBaseURI env ->
         _baseURI (transact env c st) = _baseURI st)
        /\ ((forall b, c <> SetJsonExtension b) -> no_nested is_SetJsonExtension env ->
            useJsonExtension (transact env c st) = useJsonExtension st)).
Proof.
  split; [|split].
  - intros env st newBase flag Hne.
    unfold transact, exec, exec_in.
    rewrite (setBaseURI_other env newBase st Hne), (setJsonExtension_other env flag st Hne).
    repeat split; reflexivity.
  - intros env st newBase flag Heq.
    unfold transact, exec, exec_in.
    rewrite (setBaseURI_owner env newBase st Heq), (setJsonExtension_owner env flag st Heq).
    repeat split; try reflexivity.
    + rewrite tokenURI_plain by assumption. reflexivity.
    + rewrite tokenURI_plain by assumption. reflexivity.
  - intros env c st. split.
    + intros Hc Hn.
      exact (transact_keeps _baseTokenURI is_SetBaseURI env c st baseURI_written Hn
               (not_SetBaseURI c Hc)).
    + intros Hc Hn.
      exact (transact_keeps useJsonExtension is_SetJsonExtension env c st flag_written Hn
               (not_SetJsonExtension c Hc)).
Qed.

Lemma C6_setters_authority_gated_witness :
  setBaseURI asAddr1 "https://hack.com/" deployed =
    Revert (OwnableUnauthorizedAccount ADDR1)
  /\ setBaseURI asOwner "https://api.newtest.com/metadata/" deployed =
       Ok (set_baseTokenURI "https://api.newtest.com/metadata/" deployed)
  /\ _baseURI (transact attacker (PublicMint 3)
                 (set_baseTokenURI "https://api.newtest.com/metadata/" smallOpen)) =
       "https://api.newtest.com/metadata/".
Proof.
  split; [|split].
  - apply (proj1 C6_setters_authority_gated asAddr1 deployed "https://hack.com/" false).
    vm_compute. discriminate.
  - apply (proj1 (proj2 C6_setters_authority_gated) asOwner deployed
             "https://api.newtest.com/metadata/" false).
    reflexivity.
  - apply (proj1 (proj2 (proj2 C6_setters_authority_gated) attacker (PublicMint 3)
                   (set_baseTokenURI "https://api.newtest.com/metadata/" smallOpen))).
    + discriminate.
    + intros to tokenId st sender value c. unfold attacker, reentering. simpl.
      destruct ((to =? ATTACKER) && (tokenId =? 1)); simpl; [|tauto].
      intros [H|[]]. injection H as _ _ <-. simpl. tauto.
Defined.

(** C7: [setBaseURI] is idempotent with respect to resolution: after two
    calls in a row with the same argument (by the same caller, authorized
    or not, or by any two callers when both calls succeed) the storage, and
    so every resolution, is what it is after one. *)
Theorem C7_setBaseURI_idempotent :
  forall env x st,
    transact env (SetBaseURI x) (transact env (SetBaseURI x) st) =
      transact env (SetBaseURI x) st
    /\ (forall t,
          tokenURI (transact env (SetBaseURI x) (transact env (SetBaseURI x) st)) t =
            tokenURI (transact env (SetBaseURI x) st) t)
    /\ (forall env' st1 st2,
          setBaseURI env x st = Ok st1 -> setBaseURI env' x st1 = Ok st2 ->
          st2 = st1 /\ forall t, tokenURI st2 t = tokenURI st1 t).
Proof.
  assert (Hst : forall env x st,
             transact env (SetBaseURI x) (transact env (SetBaseURI x) st) =
               transact env (SetBaseURI x) st).
  { intros env x st. unfold transact, exec, exec_in.
    destruct (decide (msg_sender env = _owner st)) as [Heq|Hne].
    - rewrite (setBaseURI_owner env x st Heq).
      rewrite (setBaseURI_owner env x (set_baseTokenURI x st) Heq). reflexivity.
    - rewrite (setBaseURI_other env x st Hne).
      rewrite (setBaseURI_other env x st Hne). reflexivity. }
  intros env x st. split; [apply Hst|]. split.
  - intro t. now rewrite Hst.
  - intros env' st1 st2 H1 H2.
    unfold setBaseURI in H1, H2. bind_inv H1. bind_inv H2.
    injection H1 as <-. injection H2 as <-.
    split; [reflexivity|]. intro t. reflexivity.
Qed.

(** C8, as stated, fails when the recipient of a token calls back into the
    contract.  [ATTACKER] calls [publicMint(3)] on a fresh collection; when
    it is handed token 1 it has [HELPER] mint two tokens.  The three ids
    from the counter on were 1, 2 and 3, but ids 2 and 3 have gone to
    [HELPER] and the caller holds 1, 4 and 5; the counter has moved by 5,
    not by 3. *)
Lemma C8_counterexample :
  reachable smallOpen /\ valid_env attackerWithHelper
  /\ exists st',
    publicMint attackerWithHelper 3 smallOpen = Ok st'
    /\ nextTokenId smallOpen = 1
    /\ nextTokenId st' = 6 /\ nextTokenId st' <> nextTokenId smallOpen + 3
    /\ _ownerOf st' 1 = ATTACKER /\ _ownerOf st' 2 = HELPER /\ _ownerOf st' 3 = HELPER
    /\ _ownerOf st' 4 = ATTACKER /\ _ownerOf st' 5 = ATTACKER
    /\ _ownerOf st' 2 <> msg_sender attackerWithHelper.
Proof.
  split; [exact reachable_smallOpen|]. split.
  { apply reentering_valid; [unfold is_address|unfold is_uint256];
      split; vm_compute; discriminate. }
  eexists. split; [vm_compute; reflexivity|].
  repeat split; try reflexivity; vm_compute; discriminate.
Qed.

(** C8 (amended): token ids come from a counter.  The counter starts at 1;
    in every reachable state the ids in use are exactly 1 .. nextTokenId - 1,
    and no step ever moves the counter down or takes an id out of use, so
    ids are unique, increasing and never reused.  A successful [mint] or
    [publicMint] of quantity q whose recipient does not call back into the
    contract gives the recipient exactly the q ids from the counter on, each
    without holder before, leaves every other id as it was and moves the
    counter up by q; on a fresh deployment the first of them is id 1. *)
Theorem C8_sequential_token_ids :
  (forall deployer name symbol maxSupply_ baseURI recipient feeBps flag,
      nextTokenId (constructor deployer name symbol maxSupply_ baseURI recipient feeBps flag)
        = 1)
  /\ (forall deployer name symbol maxSupply_ baseURI recipient feeBps flag env to q st',
        passive env to -> 1 <= q ->
        mint env to q (constructor deployer name symbol maxSupply_ baseURI recipient feeBps flag)
          = Ok st' ->
        _ownerOf st' 1 = to /\ to <> 0)
  /\ (forall env to q st st',
        passive env to -> is_uint256 q -> mint env to q st = Ok st' ->
        nextTokenId st' = nextTokenId st + q
        /\ (forall t, nextTokenId st <= t < nextTokenId st + q ->
                      _ownerOf st t = 0 /\ _ownerOf st' t = to /\ to <> 0)
        /\ (forall t, ~ (nextTokenId st <= t < nextTokenId st + q) ->
                      _ownerOf st' t = _ownerOf st t))
  /\ (forall env q st st',
        passive env (msg_sender env) -> publicMint env q st = Ok st' ->
        nextTokenId st' = nextTokenId st + q
        /\ (forall t, nextTokenId st <= t < nextTokenId st + q ->
                      _ownerOf st t = 0 /\ _ownerOf st' t = msg_sender env
                      /\ msg_sender env <> 0)
        /\ (forall t, ~ (nextTokenId st <= t < nextTokenId st + q) ->
                      _ownerOf st' t = _ownerOf st t))
  /\ (forall st,
        reachable st ->
        1 <= nextTokenId st
        /\ forall t, _ownerOf st t <> 0 <-> 1 <= t < nextTokenId st)
  /\ (forall st st',
        step st st' ->
        nextTokenId st <= nextTokenId st'
        /\ forall t, _ownerOf st t <> 0 -> _ownerOf st' t <> 0).
Proof.
  unfold nextTokenId.
  split; [reflexivity|]. split; [|split; [|split; [|split]]].
  - intros deployer name symbol maxSupply_ baseURI recipient feeBps flag env to q st' Hpas Hq H.
    apply mint_ok in H as (_ & _ & _ & _ & Hnew & _); [|assumption|lia].
    simpl in Hnew. destruct (Hnew 1 ltac:(lia)) as (_ & H1 & H2). now split.
  - intros env to q st st' Hpas [Hq _] H.
    apply mint_ok in H as (_ & _ & Hnext & _ & Hnew & Hold); [|assumption|assumption].
    split; [exact Hnext|]. split; [exact Hnew|exact Hold].
  - intros env q st st' Hpas H.
    apply publicMint_ok in H as (Hnext & _ & Hnew & Hold); [|assumption].
    split; [exact Hnext|]. split; [exact Hnew|exact Hold].
  - intros st Hr. exact (reachable_invariant st Hr).
  - intros st st' Hs. destruct (step_monotone st st' Hs) as (H1 & H2 & _).
    split; assumption.
Qed.

Lemma C8_sequential_token_ids_witness :
  (nextTokenId minted_three = nextTokenId deployed + 3
   /\ _ownerOf minted_three 1 = ADDR1 /\ _ownerOf minted_three 2 = ADDR1
   /\ _ownerOf minted_three 3 = ADDR1
   /\ _ownerOf minted_three 4 = _ownerOf deployed 4)
  /\ (nextTokenId addr1Bought = nextTokenId publicOpen + 2
      /\ _ownerOf addr1Bought 2 = ADDR1)
  /\ (_ownerOf oversold 4 <> 0 <-> 1 <= 4 < nextTokenId oversold)
  /\ nextTokenId smallOpen <= nextTokenId oversold.
Proof.
  destruct C8_sequential_token_ids as (_ & _ & Hmint & Hpublic & Hreach & Hstep).
  split; [|split; [|split]].
  - assert (Hpas : passive asOwner ADDR1) by (intros t s; reflexivity).
    assert (Hq : is_uint256 3) by (unfold is_uint256, MAX_UINT256; lia).
    assert (H : mint asOwner ADDR1 3 deployed = Ok minted_three) by reflexivity.
    destruct (Hmint asOwner ADDR1 3 deployed minted_three Hpas Hq H) as (Hnext & Hnew & Hold).
    split; [exact Hnext|].
    split; [apply (Hnew 1); unfold nextTokenId; simpl; lia|].
    split; [apply (Hnew 2); unfold nextTokenId; simpl; lia|].
    split; [apply (Hnew 3); unfold nextTokenId; simpl; lia|].
    apply (Hold 4). unfold nextTokenId. simpl. lia.
  - assert (Hpas : passive (addr1Paying (2 * ether / 100))
                     (msg_sender (addr1Paying (2 * ether / 100))))
      by (intros t s; reflexivity).
    assert (H : publicMint (addr1Paying (2 * ether / 100)) 2 publicOpen = Ok addr1Bought)
      by reflexivity.
    destruct (Hpublic _ 2 publicOpen addr1Bought Hpas H) as (Hnext & Hnew & _).
    split; [exact Hnext|]. apply (Hnew 2). unfold nextTokenId. simpl. lia.
  - apply (proj2 (Hreach oversold reachable_oversold) 4).
  - apply (proj1 (Hstep smallOpen oversold step_smallOpen_oversold)).
Defined.

(** C9: the supply cap does not hold.  The collection [smallOpen] has a
    supply of three tokens, none minted yet, public minting switched on at
    0.01 ether and 5 per address.  [ATTACKER], a contract, calls
    [publicMint(3)] with 0.03 ether; the supply check passes.  Handed token
    1 in the first round of the loop, it calls [publicMint(2)] with 0.02
    ether: the check passes again, since the counter stands at 2, and tokens
    2 and 3 are minted.  The outer loop then goes on to mint tokens 4 and 5
    without looking at the supply again.  The state reached has
    totalMinted() = 5 with maxSupply = 3. *)
Theorem C9_supply_cap_broken :
  reachable smallOpen /\ valid_env attacker
  /\ totalMinted smallOpen = Ok 0 /\ maxSupply smallOpen = 3
  /\ publicMint attacker 3 smallOpen = Ok oversold
  /\ reachable oversold
  /\ totalMinted oversold = Ok 5 /\ maxSupply oversold = 3
  /\ (forall t, 1 <= t <= 5 -> _ownerOf oversold t = ATTACKER)
  /\ exists st n, reachable st /\ totalMinted st = Ok n /\ maxSupply st < n.
Proof.
  split; [exact reachable_smallOpen|]. split; [exact attacker_valid|].
  split; [reflexivity|]. split; [reflexivity|]. split; [reflexivity|].
  split; [exact reachable_oversold|]. split; [reflexivity|]. split; [reflexivity|].
  split.
  - intros t Ht.
    assert (Hc : t = 1 \/ t = 2 \/ t = 3 \/ t = 4 \/ t = 5) by lia.
    destruct Hc as [->|[->|[->|[->| ->]]]]; reflexivity.
  - exists oversold, 5. split; [exact reachable_oversold|]. split; [reflexivity|].
    simpl. lia.
Qed.

(** C10, as stated, fails in two ways.  After the owner has set a fee of
    1000 basis points, [royaltyInfo] for the sale price 2^256 - 1 does not
    return an amount: the checked product leaves the 256-bit range and the
    call reverts.  And a fee above 1000 offered by someone else than the
    owner is refused with the authorization error, not with "Royalty fee too
    high". *)
Lemma C10_counterexample :
  setRoyaltyInfo asOwner ADDR1 1000 deployed = Ok (set_royalty ADDR1 1000 deployed)
  /\ is_uint256 MAX_UINT256
  /\ royaltyInfo (set_royalty ADDR1 1000 deployed) 1 MAX_UINT256 =
       Revert (Panic ARITHMETIC_PANIC)
  /\ royaltyInfo (set_royalty ADDR1 1000 deployed) 1 MAX_UINT256 <>
       Ok (ADDR1, MAX_UINT256 * 1000 / 10000)
  /\ 1000 < 1001
  /\ setRoyaltyInfo asAddr1 ADDR1 1001 deployed = Revert (OwnableUnauthorizedAccount ADDR1)
  /\ setRoyaltyInfo asAddr1 ADDR1 1001 deployed <> Revert (Reason "Royalty fee too high").
Proof.
  split; [reflexivity|].
  split; [unfold is_uint256, MAX_UINT256; lia|].
  split; [reflexivity|].
  split; [discriminate|].
  split; [lia|].
  split; [reflexivity|discriminate].
Qed.

(** C10 (amended): called by the owner, [setRoyaltyInfo(recipient, feeBps)]
    fails with "Royalty fee too high" if and only if feeBps > 1000 (called
    by anyone else it fails with the authorization error); a failed call
    leaves royaltyRecipient and royaltyFeeBps unchanged; after a successful
    call [royaltyInfo(_, salePrice)] returns receiver = recipient and
    royaltyAmount = floor(salePrice * feeBps / 10000) for every salePrice
    whose product with feeBps fits in 256 bits, and reverts with the
    arithmetic panic for the others; this lasts until [setRoyaltyInfo] is
    called again, be it from outside or by a recipient from inside a
    minting call. *)
Theorem C10_royalty_settings :
  (forall env st recipient feeBps,
      msg_sender env = _owner st ->
      (setRoyaltyInfo env recipient feeBps st = Revert (Reason "Royalty fee too high")
       <-> 1000 < feeBps))
  /\ (forall env st recipient feeBps,
        msg_sender env <> _owner st ->
        setRoyaltyInfo env recipient feeBps st =
          Revert (OwnableUnauthorizedAccount (msg_sender env)))
  /\ (forall env st recipient feeBps e,
        setRoyaltyInfo env recipient feeBps st = Revert e ->
        transact env (SetRoyaltyInfo recipient feeBps) st = st
        /\ royaltyRecipient (transact env (SetRoyaltyInfo recipient feeBps) st) =
             royaltyRecipient st
        /\ royaltyFeeBps (transact env (SetRoyaltyInfo recipient feeBps) st) =
             royaltyFeeBps st)
  /\ (forall env st recipient feeBps st',
        setRoyaltyInfo env recipient feeBps st = Ok st' ->
        royaltyRecipient st' = recipient /\ royaltyFeeBps st' = feeBps
        /\ forall tokenId salePrice,
             (salePrice * feeBps <= MAX_UINT256 ->
              royaltyInfo st' tokenId salePrice = Ok (recipient, salePrice * feeBps / 10000))
             /\ (MAX_UINT256 < salePrice * feeBps ->
                 royaltyInfo st' tokenId salePrice = Revert (Panic ARITHMETIC_PANIC)))
  /\ (forall env c st,
        (forall r f, c <> SetRoyaltyInfo r f) -> no_nested is_SetRoyaltyInfo env ->
        royaltyRecipient (transact env c st) = royaltyRecipient st
        /\ royaltyFeeBps (transact env c st) = royaltyFeeBps st
        /\ forall tokenId salePrice,
             royaltyInfo (transact env c st) tokenId salePrice =
               royaltyInfo st tokenId salePrice).
Proof.
  split; [|split; [|split; [|split]]].
  - intros env st r fee Hown. rewrite setRoyaltyInfo_owner by assumption.
    destruct (fee <=? 1000) eqn:E; split; intro H;
      try discriminate; try reflexivity; lia.
  - intros env st r fee Hne. unfold setRoyaltyInfo. now rewrite onlyOwner_other.
  - intros env st r fee e H. unfold transact, exec, exec_in. rewrite H. repeat split.
  - intros env st r fee st' H.
    apply setRoyaltyInfo_ok in H as (_ & _ & ->).
    split; [reflexivity|]. split; [reflexivity|].
    intros tokenId salePrice. unfold royaltyInfo, checked_mul. simpl.
    split; intro H.
    + destruct (salePrice * fee <=? MAX_UINT256) eqn:E; [reflexivity|lia].
    + destruct (salePrice * fee <=? MAX_UINT256) eqn:E; [lia|reflexivity].
  - intros env c st Hc Hn.
    pose proof (transact_keeps (fun s => (royaltyRecipient s, royaltyFeeBps s))
                  is_SetRoyaltyInfo env c st royalty_written Hn (not_SetRoyaltyInfo c Hc))
      as Hr.
    injection Hr as Hrec Hfee.
    split; [exact Hrec|]. split; [exact Hfee|].
    intros tokenId salePrice. unfold royaltyInfo. now rewrite Hrec, Hfee.
Qed.

Lemma C10_royalty_settings_witness :
  (setRoyaltyInfo asOwner ADDR1 1001 deployed = Revert (Reason "Royalty fee too high")
   <-> 1000 < 1001)
  /\ royaltyInfo (set_royalty ADDR1 750 deployed) 1 10000 = Ok (ADDR1, 750)
  /\ royaltyInfo (transact asOwner (Mint ADDR1 3) (set_royalty ADDR1 750 deployed)) 1 10000 =
       royaltyInfo (set_royalty ADDR1 750 deployed) 1 10000.
Proof.
  destruct C10_royalty_settings as (Hiff & _ & _ & Hok & Hkeep).
  split; [|split].
  - apply (Hiff asOwner deployed ADDR1 1001). reflexivity.
  - assert (Hset : setRoyaltyInfo asOwner ADDR1 750 deployed =
                     Ok (set_royalty ADDR1 750 deployed)) by reflexivity.
    destruct (Hok asOwner deployed ADDR1 750 _ Hset) as (_ & _ & Hinfo).
    apply (proj1 (Hinfo 1 10000)). unfold MAX_UINT256. lia.
  - apply (Hkeep asOwner (Mint ADDR1 3) (set_royalty ADDR1 750 deployed)).
    + discriminate.
    + apply quiet_no_nested.
Defined.

(** * Further properties *)

(** ** Decimal strings *)

Lemma digit_value_digit d :
  0 <= d <= 9 -> digit_value (digit d) = Some d.
Proof.
  intro H. unfold digit_value, digit.
  rewrite Ascii.nat_ascii_embedding by lia.
  rewrite Nat2Z.inj_add, Z2Nat.id by lia.
  change (Z.of_nat 48) with 48.
  assert (E1 : (48 <=? 48 + d) = true) by lia.
  assert (E2 : (48 + d <=? 57) = true) by lia.
  rewrite E1, E2. cbn [andb]. f_equal. lia.
Qed.

Lemma toString_digits_S fuel value buffer :
  toString_digits (S fuel) value buffer =
    if value / 10 =? 0 then String (digit (value mod 10)) buffer
    else toString_digits fuel (value / 10) (String (digit (value mod 10)) buffer).
Proof. reflexivity. Qed.

Lemma parseDecimal_from_digit acc d s :
  0 <= d <= 9 ->
  parseDecimal_from acc (String (digit d) s) = parseDecimal_from (10 * acc + d) s.
Proof.
  intro H. cbn [parseDecimal_from]. now rewrite digit_value_digit.
Qed.

(** The digits of [value] are put in front of the buffer, so reading the
    result is reading [value] and then the buffer. *)
Lemma parseDecimal_toString_digits fuel : forall value buffer acc,
  0 <= value < 10 ^ Z.of_nat fuel ->
  exists k, 0 <= k /\
    parseDecimal_from acc (toString_digits fuel value buffer) =
      parseDecimal_from (acc * 10 ^ k + value) buffer.
Proof.
  induction fuel as [|f IH]; intros value buffer acc Hv.
  - exists 0. split; [lia|]. change (Z.of_nat 0) with 0 in Hv.
    change (toString_digits 0 value buffer) with buffer.
    rewrite Z.pow_0_r in *. f_equal. lia.
  - rewrite Nat2Z.inj_succ, Z.pow_succ_r in Hv by lia.
    assert (Hd : 0 <= value mod 10 <= 9) by (pose proof (Z.mod_pos_bound value 10); lia).
    assert (Hdiv : value = 10 * (value / 10) + value mod 10) by (apply Z.div_mod; lia).
    rewrite toString_digits_S. destruct (value / 10 =? 0) eqn:E.
    + exists 1. split; [lia|]. rewrite parseDecimal_from_digit by assumption.
      f_equal. rewrite Z.pow_1_r. lia.
    + assert (Hq : 0 <= value / 10 < 10 ^ Z.of_nat f).
      { split; [apply Z.div_pos; lia|]. apply Z.div_lt_upper_bound; lia. }
      destruct (IH (value / 10) (String (digit (value mod 10)) buffer) acc Hq)
        as (k & Hk & Heq).
      exists (Z.succ k). split; [lia|]. rewrite Heq.
      rewrite parseDecimal_from_digit by assumption.
      f_equal. rewrite Z.pow_succ_r by assumption. lia.
Qed.

Lemma toString_digits_nonempty fuel : forall value buffer,
  buffer <> EmptyString -> toString_digits fuel value buffer <> EmptyString.
Proof.
  induction fuel as [|f IH]; intros value buffer Hb; [exact Hb|].
  rewrite toString_digits_S.
  destruct (value / 10 =? 0); [discriminate|]. apply IH. discriminate.
Qed.

Lemma toString_nonempty value : toString value <> EmptyString.
Proof.
  unfold toString. change 78%nat with (S 77). rewrite toString_digits_S.
  destruct (value / 10 =? 0); [discriminate|].
  apply toString_digits_nonempty. discriminate.
Qed.

Lemma uint256_below_78_digits value : is_uint256 value -> 0 <= value < 10 ^ Z.of_nat 78.
Proof.
  intros [H0 H1]. split; [exact H0|].
  apply Z.le_lt_trans with MAX_UINT256; [exact H1|]. vm_compute. reflexivity.
Qed.

Lemma parseDecimal_toString value :
  is_uint256 value -> parseDecimal (toString value) = Some value.
Proof.
  intro Hv. unfold parseDecimal.
  destruct (toString value) as [|c s] eqn:E.
  - now apply toString_nonempty in E.
  - rewrite <- E. unfold toString.
    destruct (parseDecimal_toString_digits 78 value EmptyString 0
                (uint256_below_78_digits value Hv)) as (k & _ & ->).
    cbn [parseDecimal_from]. f_equal.
Qed.

Lemma toString_inj a b :
  is_uint256 a -> is_uint256 b -> toString a = toString b -> a = b.
Proof.
  intros Ha Hb H.
  pose proof (parseDecimal_toString a Ha) as Pa.
  pose proof (parseDecimal_toString b Hb) as Pb.
  rewrite H in Pa. congruence.
Qed.

Lemma append_cancel_l (p a b : string) : p +:+ a = p +:+ b -> a = b.
Proof.
  induction p as [|c p IH]; simpl; intro H; [exact H|].
  injection H as H. now apply IH.
Qed.

Lemma append_length (a b : string) :
  String.length (a +:+ b) = (String.length a + String.length b)%nat.
Proof. induction a as [|c a IH]; simpl; [reflexivity|]. now rewrite IH. Qed.

Lemma append_cancel_r (e : string) : forall a b : string, a +:+ e = b +:+ e -> a = b.
Proof.
  induction a as [|c a IH]; intros [|d b] H; simpl in H.
  - reflexivity.
  - apply (f_equal String.length) in H. rewrite !append_length in H. simpl in H. lia.
  - apply (f_equal String.length) in H. rewrite !append_length in H. simpl in H. lia.
  - change (String c (a +:+ e) = String d (b +:+ e)) in H.
    injection H as -> H. f_equal. now apply IH.
Qed.

Lemma defaultURI_inj st a b :
  is_uint256 a -> is_uint256 b -> defaultURI st a = defaultURI st b -> a = b.
Proof.
  intros Ha Hb H. unfold defaultURI in H.
  destruct (useJsonExtension st).
  - apply append_cancel_l, append_cancel_r in H. now apply toString_inj.
  - apply append_cancel_l in H. now apply toString_inj.
Qed.

(** ** Who may do what *)

(** ** Who may call what *)

Lemma exec_other_caller env c st :
  msg_sender env <> _owner st -> (forall q, c <> PublicMint q) ->
  exec env c st = Revert (OwnableUnauthorizedAccount (msg_sender env)).
Proof.
  intros Hne Hc. unfold exec.
  destruct c as [to q|q|x|b|en pr mx|r f| |]; cbn [exec_in].
  - unfold mint_in. now rewrite onlyOwner_other.
  - now contradiction (Hc q).
  - now apply setBaseURI_other.
  - now apply setJsonExtension_other.
  - unfold setPublicMintSettings. now rewrite onlyOwner_other.
  - unfold setRoyaltyInfo. now rewrite onlyOwner_other.
  - unfold pause. now rewrite onlyOwner_other.
  - unfold unpause. now rewrite onlyOwner_other.
Qed.

(** X1: of the entry points of the contract itself, all but [publicMint]
    are the owner's alone: [mint], the four setters, [pause] and [unpause]
    revert with the authorization error for every other caller, before
    doing anything, whatever their arguments and whatever the state, and
    the call leaves the storage as it was. *)
Theorem X1_owner_only_entry_points :
  forall env c st,
    msg_sender env <> _owner st -> (forall q, c <> PublicMint q) ->
    exec env c st = Revert (OwnableUnauthorizedAccount (msg_sender env))
    /\ transact env c st = st.
Proof.
  intros env c st Hne Hc. unfold transact.
  rewrite (exec_other_caller env c st Hne Hc). now split.
Qed.

Lemma X1_owner_only_entry_points_witness :
  exec asAddr1 Pause deployed = Revert (OwnableUnauthorizedAccount ADDR1)
  /\ transact asAddr1 Pause deployed = deployed.
Proof.
  apply (X1_owner_only_entry_points asAddr1 Pause deployed).
  - vm_compute. discriminate.
  - discriminate.
Defined.

(** ** Public minting *)

(** X2: [setPublicMintSettings], called by the owner, always succeeds and
    assigns the three settings.  Afterwards they govern [publicMint] at
    once: with minting switched off every unpaused [publicMint] is refused
    with "Public mint not enabled", and an address whose running count plus
    the requested quantity is above the new limit cannot mint, even if its
    count was reached under a higher limit. *)
Theorem X2_public_mint_settings_govern :
  forall owner_env enabled price maxPerAddress st,
    msg_sender owner_env = _owner st ->
    setPublicMintSettings owner_env enabled price maxPerAddress st =
      Ok (set_publicMint enabled price maxPerAddress st)
    /\ (forall env q,
          enabled = false -> _paused st = false ->
          publicMint env q (set_publicMint enabled price maxPerAddress st) =
            Revert (Reason "Public mint not enabled"))
    /\ (forall env q,
          maxPerAddress < mintsOf st (msg_sender env) + q ->
          exists e,
            publicMint env q (set_publicMint enabled price maxPerAddress st) = Revert e).
Proof.
  intros owner_env enabled price maxPerAddress st Hown.
  split; [|split].
  - unfold setPublicMintSettings. now rewrite onlyOwner_owner.
  - intros env q -> Hp. unfold publicMint, publicMint_in, whenNotPaused. simpl. now rewrite Hp.
  - intros env q Hcap.
    destruct (publicMint env q (set_publicMint enabled price maxPerAddress st))
      as [st'|e] eqn:E; [|eauto].
    apply publicMint_guards in E as (_ & _ & _ & _ & _ & Hle & _). simpl in Hle.
    change (mintsOf (set_publicMint enabled price maxPerAddress st) (msg_sender env))
      with (mintsOf st (msg_sender env)) in Hle. lia.
Qed.

Lemma X2_public_mint_settings_govern_witness :
  setPublicMintSettings asOwner false (ether / 100) 5 publicOpen =
    Ok (set_publicMint false (ether / 100) 5 publicOpen)
  /\ publicMint (addr1Paying (ether / 100)) 1 (set_publicMint false (ether / 100) 5 publicOpen) =
       Revert (Reason "Public mint not enabled").
Proof.
  destruct (X2_public_mint_settings_govern asOwner false (ether / 100) 5 publicOpen eq_refl)
    as (H1 & H2 & _).
  split; [exact H1|]. apply H2; reflexivity.
Defined.

(** X3: a successful [publicMint] of quantity q has passed the guards (q is
    positive, the caller's running count plus q is within the limit per
    address, the value sent covers price times q); whatever the recipient
    does with the tokens it is handed, the caller's count has gone up by at
    least q, nobody's count has gone down and the counter has moved up by
    at least q.  When the caller does not call back into the contract, its
    count has gone up by exactly q and nobody else's has changed, the counter
    has moved by exactly q, and the owner, pause flag, metadata and royalty
    settings, supply cap and mint settings are as before. *)
Theorem X3_publicMint_accounting :
  forall env q st st',
    publicMint env q st = Ok st' ->
    (0 < q /\ mintsOf st (msg_sender env) + q <= maxMintsPerAddress st
     /\ publicMintPrice st * q <= msg_value env)
    /\ mintsOf st (msg_sender env) + q <= mintsOf st' (msg_sender env)
    /\ (forall account, mintsOf st account <= mintsOf st' account)
    /\ nextTokenId st + q <= nextTokenId st'
    /\ (passive env (msg_sender env) ->
        mintsOf st' (msg_sender env) = mintsOf st (msg_sender env) + q
        /\ (forall account,
              account <> msg_sender env -> mintsOf st' account = mintsOf st account)
        /\ mintsOf st' (msg_sender env) <= maxMintsPerAddress st'
        /\ nextTokenId st' = nextTokenId st + q
        /\ (_owner st' = _owner st /\ _paused st' = _paused st
            /\ _baseTokenURI st' = _baseTokenURI st
            /\ useJsonExtension st' = useJsonExtension st
            /\ royaltyRecipient st' = royaltyRecipient st
            /\ royaltyFeeBps st' = royaltyFeeBps st
            /\ maxSupply st' = maxSupply st
            /\ publicMintPrice st' = publicMintPrice st
            /\ maxMintsPerAddress st' = maxMintsPerAddress st
            /\ publicMintEnabled st' = publicMintEnabled st)).
Proof.
  unfold nextTokenId. intros env q st st' H.
  pose proof (publicMint_guards env q st st' H)
    as (_ & _ & Hq & _ & _ & Hcap & _ & _ & Hpay & Hloop).
  split; [exact (conj Hq (conj Hcap Hpay))|].
  assert (Hahead : ahead q
            (set_mintsPerAddress
               (<[msg_sender env := mintsOf st (msg_sender env) + q]> (mintsPerAddress st)) st)
            st').
  { destruct env as [sender value hooks].
    apply (mint_loop_ahead hooks nested (transact_at_ahead hooks CALL_DEPTH)) in Hloop.
    rewrite Z2Nat.id in Hloop by lia. exact Hloop. }
  destruct Hahead as [Hnext Hcount]. simpl in Hnext.
  split.
  { destruct (Hcount (msg_sender env)) as [Hm _].
    rewrite (mintsOf_insert _ st) in Hm by reflexivity.
    destruct (decide (msg_sender env = msg_sender env)); [exact Hm|contradiction]. }
  split.
  { intro account. destruct (Hcount account) as [Hm _].
    rewrite (mintsOf_insert _ st) in Hm by reflexivity.
    destruct (decide (msg_sender env = account)) as [<-|]; lia. }
  split; [lia|].
  intro Hpas.
  pose proof (publicMint_ok env q st st' Hpas H) as (Hn & Hf & _).
  pose proof (minted_from_fields _ _ Hf)
    as (E1 & E2 & E3 & E4 & E5 & _ & Em & E6 & E7 & E8 & E9 & E10).
  simpl in E1, E2, E3, E4, E5, Em, E6, E7, E8, E9, E10.
  assert (Hm : forall account,
             mintsOf st' account =
               if decide (msg_sender env = account) then mintsOf st (msg_sender env) + q
               else mintsOf st account).
  { intro account. unfold mintsOf at 1. rewrite Em, lookup_insert.
    destruct (decide (msg_sender env = account)); reflexivity. }
  split.
  { rewrite Hm. destruct (decide (msg_sender env = msg_sender env)); congruence. }
  split.
  { intros account Hne. rewrite Hm.
    destruct (decide (msg_sender env = account)); congruence. }
  split.
  { rewrite Hm, E9. destruct (decide (msg_sender env = msg_sender env)); [lia|congruence]. }
  split; [exact Hn|].
  repeat (split; [assumption|]). assumption.
Qed.

Lemma X3_publicMint_accounting_witness :
  (mintsOf addr1Bought ADDR1 = mintsOf publicOpen ADDR1 + 2
   /\ mintsOf addr1Bought OWNER = mintsOf publicOpen OWNER)
  /\ mintsOf smallOpen ATTACKER + 3 <= mintsOf oversold ATTACKER
  /\ nextTokenId smallOpen + 3 <= nextTokenId oversold.
Proof.
  split.
  - destruct (X3_publicMint_accounting (addr1Paying (2 * ether / 100)) 2 publicOpen
                addr1Bought eq_refl) as (_ & _ & _ & _ & Hexact).
    destruct Hexact as (H1 & H2 & _); [intros t s; reflexivity|].
    split; [exact H1|]. apply H2. discriminate.
  - destruct (X3_publicMint_accounting attacker 3 smallOpen oversold eq_refl)
      as (_ & H1 & _ & H2 & _).
    split; [exact H1|exact H2].
Defined.

(** X4: in a reachable state a [publicMint] by an externally owned account
    (or a contract that only acknowledges what it is handed) goes through
    exactly when the contract is not paused, public minting is on, the
    quantity is positive, the ids fit in 256 bits and in the supply, the
    caller stays within the limit per address, the value sent covers price
    times quantity (a product that must itself fit in 256 bits), and the
    caller is not the zero address. *)
Theorem X4_publicMint_succeeds_iff :
  forall env q st,
    reachable st -> acknowledges env (msg_sender env) ->
    ((exists st', publicMint env q st = Ok st') <->
     (_paused st = false /\ publicMintEnabled st = true /\ 0 < q
      /\ nextTokenId st + q <= MAX_UINT256
      /\ nextTokenId st + q - 1 <= maxSupply st
      /\ mintsOf st (msg_sender env) + q <= maxMintsPerAddress st
      /\ publicMintPrice st * q <= MAX_UINT256
      /\ publicMintPrice st * q <= msg_value env
      /\ msg_sender env <> 0)).
Proof.
  intros env q st Hr Hack. unfold nextTokenId.
  pose proof (reachable_invariant st Hr) as (I1 & I2).
  pose proof (reachable_credited st Hr (msg_sender env)) as Hm.
  split.
  - intros [st' H].
    pose proof (publicMint_guards env q st st' H)
      as (Hp & Hen & Hq & Hfit & Hsup & Hcap & _ & Hmul & Hpay & _).
    pose proof (publicMint_ok env q st st' (acknowledges_passive _ _ Hack) H)
      as (_ & _ & Hnew & _).
    repeat (split; [assumption|]).
    destruct (Hnew (_nextTokenId st) ltac:(lia)) as (_ & _ & Hs). exact Hs.
  - intros (Hp & Hen & Hq & Hfit & Hsup & Hcap & Hmul & Hpay & Hs).
    unfold publicMint, publicMint_in, whenNotPaused, require, checked_add, checked_mul.
    rewrite Hp, Hen. cbn [bind].
    destruct (0 <? q) eqn:E0; [|lia]. cbn [bind].
    rewrite requireSupply_pass by lia. cbn [bind].
    destruct (mintsOf st (msg_sender env) + q <=? MAX_UINT256) eqn:E1; [|lia]. cbn [bind].
    destruct (mintsOf st (msg_sender env) + q <=? maxMintsPerAddress st) eqn:E2; [|lia].
    cbn [bind].
    destruct (publicMintPrice st * q <=? MAX_UINT256) eqn:E3; [|lia]. cbn [bind].
    destruct (publicMintPrice st * q <=? msg_value env) eqn:E4; [|lia]. cbn [bind].
    apply mint_loop_pass.
    + exact Hack.
    + exact Hs.
    + exact Hp.
    + simpl. rewrite Z2Nat.id by lia. exact Hfit.
    + simpl. rewrite Z2Nat.id by lia. intros t Ht.
      destruct (decide (_ownerOf st t = 0)) as [H0|Hn]; [exact H0|].
      change (_ownerOf st t <> 0) in Hn. apply I2 in Hn. lia.
Qed.

Lemma X4_publicMint_succeeds_iff_witness :
  exists st', publicMint (addr1Paying (2 * ether / 100)) 2 publicOpen = Ok st'.
Proof.
  apply (proj2 (X4_publicMint_succeeds_iff (addr1Paying (2 * ether / 100)) 2 publicOpen
                  reachable_publicOpen ltac:(intros t s; reflexivity))).
  split; [reflexivity|]. split; [reflexivity|]. split; [lia|].
  split; [vm_compute; discriminate|]. split; [vm_compute; discriminate|].
  split; [vm_compute; discriminate|]. split; [vm_compute; discriminate|].
  split; [vm_compute; discriminate|]. discriminate.
Defined.

(** ** Owner minting *)



(** X6: minting to an externally owned account (or a contract that only
    acknowledges what it is handed) in two batches is minting in one.  If
    the owner's [mint] of q1 succeeds and a following [mint] of q2 to the
    same recipient succeeds, then [mint] of q1 + q2 from the first state
    succeeds with the same final storage; and conversely a successful
    [mint] of q1 + q2 splits into the two successful batches (the counter
    being at least 1). *)
Theorem X6_mint_batches_compose :
  forall env to q1 q2 st,
    acknowledges env to -> 0 <= q1 -> 0 <= q2 ->
    (forall st1 st2,
        mint env to q1 st = Ok st1 -> mint env to q2 st1 = Ok st2 ->
        mint env to (q1 + q2) st = Ok st2)
    /\ (forall st2,
          1 <= _nextTokenId st ->
          mint env to (q1 + q2) st = Ok st2 ->
          exists st1, mint env to q1 st = Ok st1 /\ mint env to q2 st1 = Ok st2).
Proof.
  intros env to q1 q2 st Hack H1 H2.
  pose proof (acknowledges_passive env to Hack) as Hpas. split.
  - intros st1 st2 M1 M2.
    pose proof (mint_ok env to q1 st st1 Hpas H1 M1) as (Hown & _ & Hnext & Hf & _).
    apply minted_from_fields in Hf as (Hmax & _).
    apply mint_guards in M1 as (_ & S1 & S2 & S3 & M1).
    apply mint_guards in M2 as (_ & T1 & T2 & T3 & M2).
    unfold mint, mint_in.
    rewrite onlyOwner_owner by assumption. cbn [bind].
    rewrite requireSupply_pass by lia. cbn [bind].
    rewrite Z2Nat.inj_add, mint_loop_app by assumption.
    rewrite M1. exact M2.
  - intros st2 Hnext M.
    apply mint_guards in M as (Hown & S1 & S2 & S3 & M).
    rewrite Z2Nat.inj_add, mint_loop_app in M by assumption.
    apply bind_ok in M as (st1 & M1 & M2).
    pose proof (mint_loop_ok _ _ _ _ _ _ Hpas M1) as (Hn1 & Hf & _).
    rewrite Z2Nat.id in Hn1 by assumption.
    apply minted_from_fields in Hf as (Hmax & _ & Hown1 & _).
    exists st1. unfold mint, mint_in.
    rewrite !onlyOwner_owner by congruence. cbn [bind].
    rewrite (requireSupply_pass st q1) by lia.
    rewrite (requireSupply_pass st1 q2) by lia. cbn [bind]. now split.
Qed.

Lemma X6_mint_batches_compose_witness :
  mint asOwner ADDR1 (1 + 2) deployed = Ok minted_three.
Proof.
  apply (proj1 (X6_mint_batches_compose asOwner ADDR1 1 2 deployed
                  ltac:(intros t s; reflexivity) ltac:(lia) ltac:(lia))
           (set_owners (<[1 := ADDR1]> ∅) (set_nextTokenId 2 deployed))).
  - reflexivity.
  - reflexivity.
Defined.

(** X7: a [mint] to a recipient that does not call back into the contract
    touches nothing but the holders and the counter: after a successful
    call the storage is the old one with the new holders and the counter
    advanced by the quantity, so the owner, the pause flag, the metadata,
    royalty and public-mint settings, the supply cap and every address's
    public-mint count are unchanged. *)
Theorem X7_mint_frame :
  forall env to q st st',
    passive env to -> 0 <= q -> mint env to q st = Ok st' ->
    st' = set_owners (_owners st') (set_nextTokenId (_nextTokenId st + q) st)
    /\ forall account, mintsOf st' account = mintsOf st account.
Proof.
  intros env to q st st' Hpas Hq H.
  pose proof (mint_ok env to q st st' Hpas Hq H) as (_ & _ & Hnext & Hf & _).
  split.
  - unfold minted_from in Hf. rewrite Hnext in Hf. exact Hf.
  - intro account. apply minted_from_fields in Hf.
    destruct Hf as (_ & _ & _ & _ & _ & _ & Hm & _). unfold mintsOf. now rewrite Hm.
Qed.

Lemma X7_mint_frame_witness :
  minted_three =
    set_owners (_owners minted_three) (set_nextTokenId (_nextTokenId deployed + 3) deployed).
Proof.
  apply (X7_mint_frame asOwner ADDR1 3 deployed minted_three);
    [intros t s; reflexivity|lia|reflexivity].
Defined.

(** ** Counting *)

(** X8: the number of public mints credited to an address never goes down,
    whatever happens (transfers of its tokens included), and in a reachable
    state it is between 0 and the number of tokens minted. *)
Theorem X8_mint_count_monotone :
  (forall st st' account, step st st' -> mintsOf st account <= mintsOf st' account)
  /\ (forall st account,
        reachable st ->
        0 <= mintsOf st account <= nextTokenId st - 1).
Proof.
  split.
  - intros st st' account Hs. destruct (step_ahead st st' Hs) as [_ H].
    exact (proj1 (H account)).
  - intros st account Hr. exact (reachable_credited st Hr account).
Qed.

Lemma X8_mint_count_monotone_witness :
  mintsOf publicOpen ADDR1 <= mintsOf addr1Bought ADDR1
  /\ mintsOf smallOpen ATTACKER <= mintsOf oversold ATTACKER
  /\ 0 <= mintsOf addr1Bought ADDR1 <= nextTokenId addr1Bought - 1
  /\ 0 <= mintsOf oversold ATTACKER <= nextTokenId oversold - 1.
Proof.
  destruct X8_mint_count_monotone as [Hstep Hreach].
  split; [exact (Hstep publicOpen addr1Bought ADDR1 step_publicOpen_addr1Bought)|].
  split; [exact (Hstep smallOpen oversold ATTACKER step_smallOpen_oversold)|].
  split; [exact (Hreach addr1Bought ADDR1 reachable_addr1Bought)|].
  exact (Hreach oversold ATTACKER reachable_oversold).
Defined.

(** X9: in a reachable state the holder table has exactly totalMinted()
    entries, none of them the zero address, and its keys are the ids
    1 .. nextTokenId - 1: the tokens in existence are the tokens minted. *)
Theorem X9_holders_are_the_minted :
  forall st,
    reachable st ->
    totalMinted st = Ok (Z.of_nat (size (_owners st)))
    /\ forall t holder,
         _owners st !! t = Some holder -> holder <> 0 /\ 1 <= t < nextTokenId st.
Proof.
  intros st Hr.
  pose proof (reachable_invariant st Hr) as (I1 & I2).
  pose proof (reachable_accounting st Hr) as (A1 & A2 & _).
  split.
  - rewrite A2. now apply totalMinted_value.
  - intros t holder Hl.
    assert (Hh : holder <> 0) by (intros ->; exact (A1 t Hl)).
    split; [exact Hh|]. apply I2. unfold _ownerOf. now rewrite Hl.
Qed.

Lemma X9_holders_are_the_minted_witness :
  (totalMinted minted_three = Ok (Z.of_nat (size (_owners minted_three)))
   /\ ADDR1 <> 0 /\ 1 <= 2 < nextTokenId minted_three)
  /\ (totalMinted oversold = Ok (Z.of_nat (size (_owners oversold)))
      /\ ATTACKER <> 0 /\ 1 <= 5 < nextTokenId oversold).
Proof.
  split.
  - destruct (X9_holders_are_the_minted minted_three reachable_minted_three) as [H1 H2].
    split; [exact H1|]. apply (H2 2 ADDR1). reflexivity.
  - destruct (X9_holders_are_the_minted oversold reachable_oversold) as [H1 H2].
    split; [exact H1|]. apply (H2 5 ATTACKER). reflexivity.
Defined.

(** ** Metadata in reachable states *)

(** X10: no entry point of the contract writes a per-token override, so in
    every reachable state no token carries one and every token minted
    resolves by the default rule: the empty string under an empty base
    URI, otherwise base + decimal id, with ".json" appended when the flag
    is set. *)
Theorem X10_reachable_tokens_resolve_by_default :
  forall st t,
    reachable st -> 1 <= t < nextTokenId st ->
    _tokenURIs st !! t = None
    /\ tokenURI st t =
         Ok (if Nat.eqb (String.length (_baseURI st)) 0 then EmptyString
             else if useJsonExtension st then _baseURI st +:+ toString t +:+ ".json"
             else _baseURI st +:+ toString t).
Proof.
  intros st t Hr Ht.
  pose proof (reachable_invariant st Hr) as (_ & I4).
  pose proof (reachable_accounting st Hr) as (_ & _ & A4).
  assert (Hno : _tokenURIs st !! t = None) by (rewrite A4; apply lookup_empty).
  split; [exact Hno|].
  rewrite tokenURI_plain; [reflexivity| |exact Hno]. now apply I4.
Qed.

Lemma X10_reachable_tokens_resolve_by_default_witness :
  _tokenURIs minted_three !! 2 = None
  /\ tokenURI minted_three 2 = Ok "https://api.test.com/metadata/2.json".
Proof.
  apply (X10_reachable_tokens_resolve_by_default minted_three 2 reachable_minted_three).
  unfold nextTokenId. simpl. lia.
Defined.

(** X11: in a reachable state with a non-empty base URI, two different
    tokens never resolve to the same URI. *)
Theorem X11_distinct_tokens_distinct_uris :
  forall st t1 t2,
    reachable st -> _baseURI st <> EmptyString ->
    1 <= t1 < nextTokenId st -> 1 <= t2 < nextTokenId st -> t1 <> t2 ->
    tokenURI st t1 <> tokenURI st t2.
Proof.
  intros st t1 t2 Hr Hbase H1 H2 Hne Heq. unfold nextTokenId in *.
  pose proof (reachable_invariant st Hr) as (_ & I4).
  pose proof (reachable_accounting st Hr) as (_ & _ & A4).
  pose proof (reachable_counter_fits st Hr) as Hfit.
  assert (Hno : forall t, _tokenURIs st !! t = None) by (intro t; rewrite A4; apply lookup_empty).
  rewrite (tokenURI_no_override st t1) in Heq by (try apply I4; auto).
  rewrite (tokenURI_no_override st t2) in Heq by (try apply I4; auto).
  injection Heq as Heq. apply Hne.
  apply (defaultURI_inj st); [unfold is_uint256; lia|unfold is_uint256; lia|exact Heq].
Qed.

Lemma X11_distinct_tokens_distinct_uris_witness :
  tokenURI minted_three 1 <> tokenURI minted_three 3.
Proof.
  apply (X11_distinct_tokens_distinct_uris minted_three 1 3 reachable_minted_three).
  - discriminate.
  - unfold nextTokenId. simpl. lia.
  - unfold nextTokenId. simpl. lia.
  - lia.
Defined.

(** X12: the decimal string of a 256-bit number is never empty, reads back
    as that number, and so differs for different numbers. *)
Theorem X12_toString_round_trip :
  (forall value,
      is_uint256 value ->
      toString value <> EmptyString /\ parseDecimal (toString value) = Some value)
  /\ (forall a b,
        is_uint256 a -> is_uint256 b -> toString a = toString b -> a = b).
Proof.
  split.
  - intros value Hv. split; [apply toString_nonempty|now apply parseDecimal_toString].
  - exact toString_inj.
Qed.

Lemma X12_toString_round_trip_witness :
  toString 1000 <> EmptyString /\ parseDecimal (toString 1000) = Some 1000.
Proof.
  apply (proj1 X12_toString_round_trip 1000).
  unfold is_uint256, MAX_UINT256. lia.
Defined.

(** ** Royalties *)

(** X13: the royalty fee can only be what the constructor was given or a
    value of at most 1000 basis points set later; so a contract deployed
    with at most 1000 basis points charges at most 10 percent for ever:
    [royaltyInfo] then returns, for every sale price whose thousandfold
    fits in 256 bits, an amount of at most a tenth of the price. *)
Theorem X13_royalty_fee_capped :
  forall st0 st,
    steps st0 st ->
    (royaltyFeeBps st = royaltyFeeBps st0 \/ 0 <= royaltyFeeBps st <= 1000)
    /\ (0 <= royaltyFeeBps st0 <= 1000 ->
        0 <= royaltyFeeBps st <= 1000
        /\ forall tokenId salePrice,
             0 <= salePrice -> salePrice * 1000 <= MAX_UINT256 ->
             exists amount,
               royaltyInfo st tokenId salePrice = Ok (royaltyRecipient st, amount)
               /\ 0 <= amount /\ 10 * amount <= salePrice).
Proof.
  intros st0 st Hs.
  assert (HP : royaltyFeeBps st = royaltyFeeBps st0 \/ 0 <= royaltyFeeBps st <= 1000).
  { exact (prims_royalty_fee st0 st (steps_prims st0 st Hs)). }
  split; [exact HP|]. intro H0.
  assert (Hfee : 0 <= royaltyFeeBps st <= 1000) by (destruct HP as [->|HP]; assumption).
  split; [exact Hfee|]. intros tokenId salePrice Hp Hfit.
  assert (Hprod : 0 <= salePrice * royaltyFeeBps st <= salePrice * 1000).
  { split; [apply Z.mul_nonneg_nonneg; lia|].
    apply Z.mul_le_mono_nonneg_l; lia. }
  exists (salePrice * royaltyFeeBps st / 10000).
  unfold royaltyInfo, checked_mul.
  destruct (salePrice * royaltyFeeBps st <=? MAX_UINT256) eqn:E; [|lia].
  split; [reflexivity|]. split; [apply Z.div_pos; lia|].
  pose proof (Z.mul_div_le (salePrice * royaltyFeeBps st) 10000 ltac:(lia)). lia.
Qed.

Lemma X13_royalty_fee_capped_witness :
  0 <= royaltyFeeBps publicOpen <= 1000
  /\ exists amount,
       royaltyInfo publicOpen 1 10000 = Ok (royaltyRecipient publicOpen, amount)
       /\ 0 <= amount /\ 10 * amount <= 10000.
Proof.
  destruct (X13_royalty_fee_capped deployed publicOpen steps_deployed_publicOpen)
    as (_ & H).
  destruct (H ltac:(simpl; lia)) as (Hfee & Hinfo).
  split; [exact Hfee|]. apply Hinfo; [lia|unfold MAX_UINT256; lia].
Defined.

(** X14: [royaltyInfo] ignores the token id altogether (it answers alike
    for every id, minted or not); for a non-negative fee the amount grows
    with the sale price; and with a fee of at most 10000 basis points the
    amount never exceeds the price. *)
Theorem X14_royaltyInfo_shape :
  forall st,
    0 <= royaltyFeeBps st ->
    (forall t1 t2 salePrice, royaltyInfo st t1 salePrice = royaltyInfo st t2 salePrice)
    /\ (forall t p1 p2,
          0 <= p1 <= p2 -> p2 * royaltyFeeBps st <= MAX_UINT256 ->
          exists a1 a2,
            royaltyInfo st t p1 = Ok (royaltyRecipient st, a1)
            /\ royaltyInfo st t p2 = Ok (royaltyRecipient st, a2)
            /\ 0 <= a1 <= a2)
    /\ (royaltyFeeBps st <= 10000 ->
        forall t salePrice receiver amount,
          0 <= salePrice ->
          royaltyInfo st t salePrice = Ok (receiver, amount) ->
          0 <= amount <= salePrice).
Proof.
  intros st Hfee. split; [|split].
  - reflexivity.
  - intros t p1 p2 Hp Hfit.
    assert (H1 : 0 <= p1 * royaltyFeeBps st <= p2 * royaltyFeeBps st).
    { split; [apply Z.mul_nonneg_nonneg; lia|].
      apply Z.mul_le_mono_nonneg_r; lia. }
    exists (p1 * royaltyFeeBps st / 10000), (p2 * royaltyFeeBps st / 10000).
    unfold royaltyInfo, checked_mul.
    destruct (p1 * royaltyFeeBps st <=? MAX_UINT256) eqn:E1; [|lia].
    destruct (p2 * royaltyFeeBps st <=? MAX_UINT256) eqn:E2; [|lia].
    split; [reflexivity|]. split; [reflexivity|].
    split; [apply Z.div_pos; lia|]. apply Z.div_le_mono; lia.
  - intros Hle t salePrice receiver amount Hp H.
    unfold royaltyInfo in H. bind_inv H. apply checked_mul_ok in Hstep as [-> _].
    injection H as _ <-.
    assert (Hprod : 0 <= salePrice * royaltyFeeBps st <= salePrice * 10000).
    { split; [apply Z.mul_nonneg_nonneg; lia|].
      apply Z.mul_le_mono_nonneg_l; lia. }
    split; [apply Z.div_pos; lia|].
    apply Z.div_le_upper_bound; lia.
Qed.

Lemma X14_royaltyInfo_shape_witness :
  royaltyInfo deployed 1 10000 = royaltyInfo deployed 999999 10000.
Proof.
  apply (proj1 (X14_royaltyInfo_shape deployed ltac:(simpl; lia))).
Defined.

(** ** Pausing *)

Lemma set_paused_round_trip st :
  _paused st = false -> set_paused false (set_paused true st) = st.
Proof. destruct st. simpl. intros ->. reflexivity. Qed.

(** X15: pausing is the owner's switch for public minting.  On an unpaused
    contract the owner's [pause] sets the flag and nothing else, and
    [unpause] right after it restores the storage exactly; pausing twice is
    refused; while the contract is paused every [publicMint] reverts with
    [EnforcedPause], whoever calls and whatever is sent; and the pause flag
    has no bearing on [tokenURI] or [royaltyInfo]. *)
Theorem X15_pause_switch :
  forall env st,
    msg_sender env = _owner st ->
    (_paused st = false ->
     pause env st = Ok (set_paused true st)
     /\ unpause env (set_paused true st) = Ok st
     /\ pause env (set_paused true st) = Revert EnforcedPause)
    /\ (_paused st = true ->
        forall env' q, publicMint env' q st = Revert EnforcedPause)
    /\ (forall flag t salePrice,
          tokenURI (set_paused flag st) t = tokenURI st t
          /\ royaltyInfo (set_paused flag st) t salePrice = royaltyInfo st t salePrice).
Proof.
  intros env st Hown. split; [|split].
  - intro Hp. split; [|split].
    + unfold pause, whenNotPaused. rewrite onlyOwner_owner, Hp by assumption. reflexivity.
    + unfold unpause, whenPaused. rewrite onlyOwner_owner by exact Hown. cbn [bind].
      change (_paused (set_paused true st)) with true. cbn [bind].
      now rewrite set_paused_round_trip.
    + unfold pause, whenNotPaused. rewrite onlyOwner_owner by exact Hown. reflexivity.
  - intros Hp env' q. unfold publicMint, publicMint_in, whenNotPaused. now rewrite Hp.
  - intros flag t salePrice. split; reflexivity.
Qed.

Lemma X15_pause_switch_witness :
  pause asOwner publicOpen = Ok (set_paused true publicOpen)
  /\ unpause asOwner (set_paused true publicOpen) = Ok publicOpen
  /\ pause asOwner (set_paused true publicOpen) = Revert EnforcedPause.
Proof.
  apply (proj1 (X15_pause_switch asOwner publicOpen eq_refl)). reflexivity.
Defined.

(** ** Ether *)

(** X16: [withdraw] is for the owner alone; it refuses an empty balance
    with "No funds to withdraw"; otherwise it sends the whole balance to the
    owner and leaves the storage untouched and the balance at zero, so that
    a second [withdraw] right after is refused for lack of funds; when the
    owner's account does not accept the transfer nothing is paid. *)
Theorem X16_withdraw_drains_to_owner :
  forall env accepts acc,
    (msg_sender env <> _owner (storage acc) ->
     withdraw env accepts acc = Refused (OwnableUnauthorizedAccount (msg_sender env)))
    /\ (msg_sender env = _owner (storage acc) ->
        (balance acc <= 0 ->
         withdraw env accepts acc = Refused (Reason "No funds to withdraw"))
        /\ (0 < balance acc ->
            withdraw env true acc =
              Paid (mkAccount (storage acc) 0) (_owner (storage acc)) (balance acc)
            /\ withdraw env accepts (mkAccount (storage acc) 0) =
                 Refused (Reason "No funds to withdraw")
            /\ withdraw env false acc = TransferFailed)).
Proof.
  intros env accepts acc. split.
  - intro Hne. unfold withdraw. now rewrite onlyOwner_other.
  - intro Hown. split.
    + intro Hb. unfold withdraw, require. rewrite onlyOwner_owner by assumption.
      destruct (0 <? balance acc) eqn:E; [lia|reflexivity].
    + intro Hb. unfold withdraw, require. simpl.
      rewrite onlyOwner_owner by assumption.
      destruct (0 <? balance acc) eqn:E; [|lia]. repeat split.
Qed.

Lemma X16_withdraw_drains_to_owner_witness :
  withdraw asOwner true (mkAccount publicOpen (2 * ether / 100)) =
    Paid (mkAccount publicOpen 0) OWNER (2 * ether / 100)
  /\ withdraw asAddr1 true (mkAccount publicOpen (2 * ether / 100)) =
       Refused (OwnableUnauthorizedAccount ADDR1).
Proof.
  destruct (X16_withdraw_drains_to_owner asOwner true (mkAccount publicOpen (2 * ether / 100)))
    as (_ & Hown).
  destruct (X16_withdraw_drains_to_owner asAddr1 true (mkAccount publicOpen (2 * ether / 100)))
    as (Hother & _).
  split.
  - apply (proj2 (Hown eq_refl)). vm_compute. reflexivity.
  - apply Hother. vm_compute. discriminate.
Defined.

(** ** Ranges and constants *)

(** X18: the integers in storage stay in the range of their Solidity types:
    a deployment with a 256-bit supply and a 96-bit fee is well typed, and
    every step from a well-typed state, its arguments being ABI-decoded
    values, leads to a well-typed state. *)
Theorem X18_storage_stays_in_range :
  (forall deployer name symbol maxSupply_ baseURI recipient feeBps flag,
      is_uint256 maxSupply_ -> is_uint96 feeBps ->
      well_typed (constructor deployer name symbol maxSupply_ baseURI recipient feeBps flag))
  /\ (forall st st', well_typed st -> step st st' -> well_typed st')
  /\ (forall st0 st, well_typed st0 -> steps st0 st -> well_typed st).
Proof.
  split; [exact well_typed_init|]. split; [exact well_typed_step|].
  intros st0 st Hw Hs. exact (steps_invariant well_typed well_typed_step st0 st Hs Hw).
Qed.

Lemma X18_storage_stays_in_range_witness : well_typed publicOpen.
Proof.
  destruct X18_storage_stays_in_range as (Hinit & _ & Hsteps).
  apply (Hsteps deployed publicOpen); [|exact steps_deployed_publicOpen].
  apply Hinit.
  - unfold is_uint256. split; vm_compute; discriminate.
  - unfold is_uint96. split; vm_compute; discriminate.
Defined.

(** X19: the supply cap, the collection name and its symbol are fixed at
    deployment: no sequence of steps changes them. *)
Theorem X19_supply_cap_is_immutable :
  forall st0 st,
    steps st0 st ->
    maxSupply st = maxSupply st0 /\ _name st = _name st0 /\ _symbol st = _symbol st0.
Proof.
  intros st0 st Hs.
  destruct (prims_monotone st0 st (steps_prims st0 st Hs)) as (_ & _ & _ & H).
  exact H.
Qed.

Lemma X19_supply_cap_is_immutable_witness :
  maxSupply publicOpen = maxSupply deployed /\ _name publicOpen = _name deployed
  /\ _symbol publicOpen = _symbol deployed.
Proof.
  exact (X19_supply_cap_is_immutable deployed publicOpen steps_deployed_publicOpen).
Defined.

(** ** Refusals of [publicMint], deployment defaults, composition *)

(** X20: the later refusals of [publicMint] come in the order of the
    source.  On an unpaused contract with public minting on, a positive
    quantity within the supply is refused with "Exceeds max mints per
    address" when the caller's count plus the quantity is above the limit,
    however much was sent; within the limit it is refused with
    "Insufficient payment" when the value sent is below price times
    quantity, and with the arithmetic panic when that product does not fit
    in 256 bits, whatever was sent. *)
Theorem X20_publicMint_refusals :
  forall env q st,
    _paused st = false -> publicMintEnabled st = true -> 0 < q ->
    1 <= nextTokenId st -> nextTokenId st + q <= MAX_UINT256 ->
    nextTokenId st + q - 1 <= maxSupply st ->
    mintsOf st (msg_sender env) + q <= MAX_UINT256 ->
    (maxMintsPerAddress st < mintsOf st (msg_sender env) + q ->
     publicMint env q st = Revert (Reason "Exceeds max mints per address"))
    /\ (mintsOf st (msg_sender env) + q <= maxMintsPerAddress st ->
        (publicMintPrice st * q <= MAX_UINT256 ->
         msg_value env < publicMintPrice st * q ->
         publicMint env q st = Revert (Reason "Insufficient payment"))
        /\ (MAX_UINT256 < publicMintPrice st * q ->
            publicMint env q st = Revert (Panic ARITHMETIC_PANIC))).
Proof.
  unfold nextTokenId. intros env q st Hp Hen Hq Hnext Hfit Hsup Hadd.
  assert (Hhead :
            publicMint env q st =
              bind (checked_add (mintsOf st (msg_sender env)) q)
                   (fun minted =>
                      let* _ := require (minted <=? maxMintsPerAddress st)
                                  "Exceeds max mints per address" in
                      let* price := checked_mul (publicMintPrice st) q in
                      let* _ := require (price <=? msg_value env) "Insufficient payment" in
                      mint_loop nested env (msg_sender env) (Z.to_nat q)
                        (set_mintsPerAddress
                           (<[msg_sender env := minted]> (mintsPerAddress st)) st))).
  { unfold publicMint, publicMint_in, whenNotPaused, require. rewrite Hp, Hen. cbn [bind].
    destruct (0 <? q) eqn:E; [|lia]. cbn [bind].
    rewrite requireSupply_pass by lia. reflexivity. }
  rewrite Hhead. clear Hhead.
  unfold checked_add, checked_mul, require.
  destruct (mintsOf st (msg_sender env) + q <=? MAX_UINT256) eqn:E1; [|lia]. cbn [bind].
  split.
  - intro Hcap.
    destruct (mintsOf st (msg_sender env) + q <=? maxMintsPerAddress st) eqn:E2; [lia|].
    reflexivity.
  - intro Hcap.
    destruct (mintsOf st (msg_sender env) + q <=? maxMintsPerAddress st) eqn:E2; [|lia].
    cbn [bind]. split.
    + intros Hmul Hshort.
      destruct (publicMintPrice st * q <=? MAX_UINT256) eqn:E3; [|lia]. cbn [bind].
      destruct (publicMintPrice st * q <=? msg_value env) eqn:E4; [lia|]. reflexivity.
    + intro Hover.
      destruct (publicMintPrice st * q <=? MAX_UINT256) eqn:E3; [lia|]. reflexivity.
Qed.

Lemma X20_publicMint_refusals_witness :
  publicMint (addr1Paying (6 * ether / 100)) 6 publicOpen =
    Revert (Reason "Exceeds max mints per address")
  /\ publicMint (addr1Paying (ether / 100)) 2 publicOpen =
       Revert (Reason "Insufficient payment").
Proof.
  split.
  - apply (X20_publicMint_refusals (addr1Paying (6 * ether / 100)) 6 publicOpen);
      try reflexivity; try lia; vm_compute; try discriminate; reflexivity.
  - apply (X20_publicMint_refusals (addr1Paying (ether / 100)) 2 publicOpen);
      try reflexivity; try lia; vm_compute; try discriminate; reflexivity.
Defined.

(** X21: a fresh deployment, whatever its arguments, has the deployer as
    owner, no token (every [tokenURI] fails with NotFound, totalMinted() is
    0), and public minting switched off at a price of 0.01 ether and a
    limit of 10 per address, so that every [publicMint] is refused with
    "Public mint not enabled" until the owner changes the settings. *)
Theorem X21_fresh_deployment :
  forall deployer name symbol maxSupply_ baseURI recipient feeBps flag,
    let st := constructor deployer name symbol maxSupply_ baseURI recipient feeBps flag in
    _owner st = deployer
    /\ totalMinted st = Ok 0
    /\ (forall t, tokenURI st t = Revert (ERC721NonexistentToken t))
    /\ publicMintPrice st * 100 = ether /\ maxMintsPerAddress st = 10
    /\ (forall env q, publicMint env q st = Revert (Reason "Public mint not enabled"))
    /\ (forall env to q,
          msg_sender env <> deployer ->
          mint env to q st = Revert (OwnableUnauthorizedAccount (msg_sender env))).
Proof.
  intros deployer name symbol maxSupply_ baseURI recipient feeBps flag st.
  split; [reflexivity|]. split; [reflexivity|]. split.
  { intro t. unfold tokenURI. rewrite requireOwned_missing; [reflexivity|].
    unfold _ownerOf. simpl. now rewrite lookup_empty. }
  split; [reflexivity|]. split; [reflexivity|]. split.
  - intros env q. reflexivity.
  - intros env to q Hne. unfold mint, mint_in.
    rewrite onlyOwner_other; [reflexivity|exact Hne].
Qed.

Lemma X21_fresh_deployment_witness :
  mint asAddr1 ADDR1 1 deployed = Revert (OwnableUnauthorizedAccount ADDR1)
  /\ publicMint (addr1Paying ether) 1 deployed = Revert (Reason "Public mint not enabled").
Proof.
  destruct (X21_fresh_deployment OWNER "Test NFT Collection" "TNC" 1000 BASE_URI OWNER 500 true)
    as (_ & _ & _ & _ & _ & Hpublic & Hmint).
  split.
  - apply (Hmint asAddr1 ADDR1 1). vm_compute. discriminate.
  - apply (Hpublic (addr1Paying ether) 1).
Defined.

(** X22: the two metadata setters compose as assignments to two separate
    fields.  For the owner, setting the base URI twice leaves the last
    value, setting the base URI and setting the flag give the same storage
    in either order, and afterwards a token without override resolves from
    the two values last written. *)
Theorem X22_metadata_setters_compose :
  forall env st x y flag,
    msg_sender env = _owner st ->
    transact env (SetBaseURI y) (transact env (SetBaseURI x) st) =
      transact env (SetBaseURI y) st
    /\ transact env (SetJsonExtension flag) (transact env (SetBaseURI x) st) =
         transact env (SetBaseURI x) (transact env (SetJsonExtension flag) st)
    /\ forall t,
         _ownerOf st t <> 0 -> _tokenURIs st !! t = None -> x <> EmptyString ->
         tokenURI (transact env (SetJsonExtension flag) (transact env (SetBaseURI x) st)) t =
           Ok (if flag then x +:+ toString t +:+ ".json" else x +:+ toString t).
Proof.
  intros env st x y flag Hown.
  assert (B : forall z s, _owner s = _owner st ->
                          transact env (SetBaseURI z) s = set_baseTokenURI z s).
  { intros z s Hs. unfold transact, exec, exec_in.
    rewrite setBaseURI_owner; [reflexivity|congruence]. }
  assert (J : forall b s, _owner s = _owner st ->
                          transact env (SetJsonExtension b) s = set_useJsonExtension b s).
  { intros b s Hs. unfold transact, exec, exec_in.
    rewrite setJsonExtension_owner; [reflexivity|congruence]. }
  rewrite (B x st eq_refl), (B y st eq_refl), (J flag st eq_refl).
  rewrite (B y (set_baseTokenURI x st) eq_refl).
  rewrite (J flag (set_baseTokenURI x st) eq_refl).
  rewrite (B x (set_useJsonExtension flag st) eq_refl).
  split; [reflexivity|]. split; [reflexivity|].
  intros t Hex Hno Hx.
  rewrite tokenURI_no_override; [reflexivity|exact Hex|exact Hno|exact Hx].
Qed.

Lemma X22_metadata_setters_compose_witness :
  transact asOwner (SetJsonExtension false)
    (transact asOwner (SetBaseURI "ipfs://collection/") minted_three) =
  transact asOwner (SetBaseURI "ipfs://collection/")
    (transact asOwner (SetJsonExtension false) minted_three).
Proof.
  apply (X22_metadata_setters_compose asOwner minted_three
           "ipfs://collection/" "ipfs://collection/" false eq_refl).
Defined.

Lemma sold_out_steps st0 st :
  maxSupply st0 <= _nextTokenId st0 - 1 -> steps st0 st ->
  _nextTokenId st = _nextTokenId st0 /\ maxSupply st = maxSupply st0.
Proof.
  intros Hsold Hs. induction Hs as [|st0 st st' _ IH Hstep]; [now split|].
  destruct (IH Hsold) as [E1 E2].
  destruct (sold_out_step st st' ltac:(lia) Hstep) as [F1 F2].
  split; congruence.
Qed.

(** X23: selling out is final.  Once totalMinted() has reached maxSupply in
    a reachable state, the counter never moves again and every later [mint]
    or [publicMint] of one token or more fails, whoever calls. *)
Theorem X23_sold_out_is_final :
  forall st0 st,
    reachable st0 -> steps st0 st -> nextTokenId st0 - 1 = maxSupply st0 ->
    nextTokenId st = nextTokenId st0
    /\ forall env to q,
         1 <= q ->
         (exists e, mint env to q st = Revert e)
         /\ (exists e, publicMint env q st = Revert e).
Proof.
  unfold nextTokenId. intros st0 st Hr Hs Hsold.
  destruct (sold_out_steps st0 st ltac:(lia) Hs) as [Hnext Hmax].
  split; [exact Hnext|]. intros env to q Hq. split.
  - apply mint_exceeding_fails. lia.
  - apply publicMint_exceeding_fails. lia.
Qed.

Lemma X23_sold_out_is_final_witness :
  exists e, mint asOwner ADDR1 1 smallSoldOut = Revert e.
Proof.
  destruct (X23_sold_out_is_final smallSoldOut smallSoldOut reachable_smallSoldOut
              (steps_refl smallSoldOut) eq_refl) as [_ H].
  apply (proj1 (H asOwner ADDR1 1 ltac:(lia))).
Defined.

(** ** The supply check *)

(** X24: the supply is checked once, on entry.  A [mint] by the owner, and
    a [publicMint] that has passed the pause, enabled and quantity guards,
    whose quantity would take the number of minted tokens beyond maxSupply,
    fails with "Exceeds maximum supply" as long as [_nextTokenId + quantity]
    fits in 256 bits, and with the arithmetic panic when it does not; no
    such call, whoever makes it, succeeds.  A call to recipients that do not
    call back into the contract moves the counter by exactly its quantity,
    and so leaves totalMinted() <= maxSupply in place; and the owner's
    [mint] within the supply (and the 256-bit range), to an externally owned
    account, does succeed while the contract is not paused. *)
Theorem X24_supply_checked_on_entry :
  (forall env to q st,
      msg_sender env = _owner st -> 1 <= nextTokenId st -> 0 <= q ->
      maxSupply st < nextTokenId st - 1 + q ->
      (nextTokenId st + q <= MAX_UINT256 ->
       mint env to q st = Revert (Reason "Exceeds maximum supply"))
      /\ (MAX_UINT256 < nextTokenId st + q ->
          mint env to q st = Revert (Panic ARITHMETIC_PANIC)))
  /\ (forall env q st,
        _paused st = false -> publicMintEnabled st = true ->
        1 <= nextTokenId st -> 0 < q ->
        maxSupply st < nextTokenId st - 1 + q ->
        (nextTokenId st + q <= MAX_UINT256 ->
         publicMint env q st = Revert (Reason "Exceeds maximum supply"))
        /\ (MAX_UINT256 < nextTokenId st + q ->
            publicMint env q st = Revert (Panic ARITHMETIC_PANIC)))
  /\ (forall env to q st,
        maxSupply st < nextTokenId st - 1 + q ->
        (exists e, mint env to q st = Revert e)
        /\ (exists e, publicMint env q st = Revert e))
  /\ (forall env c st,
        (forall to, passive env to) ->
        nextTokenId st - 1 <= maxSupply st ->
        nextTokenId (transact env c st) - 1 <= maxSupply (transact env c st))
  /\ (forall env to q st,
        reachable st -> acknowledges env to ->
        msg_sender env = _owner st -> to <> 0 -> _paused st = false ->
        0 <= q -> nextTokenId st - 1 + q <= maxSupply st ->
        nextTokenId st + q <= MAX_UINT256 ->
        exists st', mint env to q st = Ok st').
Proof.
  unfold nextTokenId.
  split; [|split; [|split; [|split]]].
  - intros env to q st Hown Hnext Hq Hex. unfold mint, mint_in.
    rewrite onlyOwner_owner by assumption. simpl. split; intro H.
    + rewrite requireSupply_exceeds by lia. reflexivity.
    + rewrite requireSupply_overflow by lia. reflexivity.
  - intros env q st Hp Hen Hnext Hq Hex. unfold publicMint, publicMint_in, whenNotPaused.
    rewrite Hp, Hen. simpl.
    destruct (0 <? q) eqn:E; [|lia]. simpl. split; intro H.
    + rewrite requireSupply_exceeds by lia. reflexivity.
    + rewrite requireSupply_overflow by lia. reflexivity.
  - intros env to q st Hex. split.
    + now apply mint_exceeding_fails.
    + now apply publicMint_exceeding_fails.
  - intros env c st Hpas Hcap. unfold transact.
    destruct (exec env c st) as [st'|e] eqn:H; [|exact Hcap].
    unfold exec in H.
    destruct c as [to q|q|x|b|enabled price maxPerAddress|recipient feeBps| |];
      cbn [exec_in] in H.
    + apply mint_guards in H as (_ & _ & _ & Hsup & H).
      apply mint_loop_ok in H as (Hn & Hf & _); [|apply Hpas].
      apply minted_from_fields in Hf as (Hmax & _). rewrite Hmax, Hn. lia.
    + pose proof (publicMint_guards _ _ _ _ H) as (_ & _ & _ & _ & Hsup & _).
      apply publicMint_ok in H as (Hn & Hf & _); [|apply Hpas].
      apply minted_from_fields in Hf as (Hmax & _). simpl in Hmax. rewrite Hmax, Hn. lia.
    + unfold setBaseURI in H. bind_inv H. injection H as <-. exact Hcap.
    + unfold setJsonExtension in H. bind_inv H. injection H as <-. exact Hcap.
    + unfold setPublicMintSettings in H. bind_inv H. injection H as <-. exact Hcap.
    + unfold setRoyaltyInfo in H. bind_inv H. bind_inv H. injection H as <-. exact Hcap.
    + unfold pause in H. bind_inv H. bind_inv H. injection H as <-. exact Hcap.
    + unfold unpause in H. bind_inv H. bind_inv H. injection H as <-. exact Hcap.
  - intros env to q st Hr Hack. apply mint_within_supply_succeeds; [|exact Hack].
    now apply reachable_invariant.
Qed.

Lemma X24_supply_checked_on_entry_witness :
  mint asOwner ADDR1 1001 deployed = Revert (Reason "Exceeds maximum supply")
  /\ nextTokenId (transact asOwner (Mint ADDR1 3) smallDeployed) - 1
       <= maxSupply (transact asOwner (Mint ADDR1 3) smallDeployed)
  /\ exists st', mint asOwner ADDR1 3 smallDeployed = Ok st'.
Proof.
  destruct X24_supply_checked_on_entry as (Hmint & _ & _ & Hkeep & Hok).
  split; [|split].
  - apply (Hmint asOwner ADDR1 1001 deployed).
    + reflexivity.
    + unfold nextTokenId. simpl. lia.
    + lia.
    + unfold nextTokenId. simpl. lia.
    + unfold nextTokenId, MAX_UINT256. simpl. lia.
  - apply (Hkeep asOwner (Mint ADDR1 3) smallDeployed).
    + intros to t s. reflexivity.
    + unfold nextTokenId. simpl. lia.
  - apply (Hok asOwner ADDR1 3 smallDeployed reachable_smallDeployed).
    + intros t s. reflexivity.
    + reflexivity.
    + discriminate.
    + reflexivity.
    + lia.
    + unfold nextTokenId. simpl. lia.
    + unfold nextTokenId, MAX_UINT256. simpl. lia.
Defined.

(** ** What the contract does with the answer of the storage extension *)

(** X25: for an existing token [tokenURI] asks the storage extension first
    and then decides on its answer alone: under an empty base URI the
    answer is returned as it is; under a non-empty base an answer that
    spells out base + decimal id is replaced by the default for the flag
    (with ".json" appended when the flag is set), and any other answer
    would be returned as it is, flag or no flag.  On the contract as
    deployed the extension always answers base + decimal id under a
    non-empty base, no override being there to answer otherwise. *)
Theorem X25_tokenURI_follows_parent :
  forall st t parentURI,
    _ownerOf st t <> 0 ->
    ERC721URIStorage_tokenURI st t = Ok parentURI ->
    tokenURI st t =
      Ok (if Nat.eqb (String.length (_baseURI st)) 0 then parentURI
          else if String.eqb parentURI (_baseURI st +:+ toString t)
               then (if useJsonExtension st then _baseURI st +:+ toString t +:+ ".json"
                     else _baseURI st +:+ toString t)
               else parentURI)
    /\ (reachable st -> _baseURI st <> EmptyString -> parentURI = _baseURI st +:+ toString t).
Proof.
  intros st t parentURI Hex Hp. split.
  - exact (tokenURI_of_parent st t parentURI Hex Hp).
  - intros Hr Hbase.
    pose proof (reachable_accounting st Hr) as (_ & _ & A3).
    assert (Hno : _tokenURIs st !! t = None) by (rewrite A3; apply lookup_empty).
    rewrite (parent_no_override st t Hex Hno) in Hp.
    apply length_nonzero_nonempty in Hbase. rewrite Hbase in Hp. now injection Hp as <-.
Qed.

Lemma X25_tokenURI_follows_parent_witness :
  tokenURI minted_three 2 = Ok "https://api.test.com/metadata/2.json"
  /\ tokenURI (set_baseTokenURI EmptyString minted_three) 2 = Ok EmptyString.
Proof.
  split.
  - apply (proj1 (X25_tokenURI_follows_parent minted_three 2
                    "https://api.test.com/metadata/2" ltac:(vm_compute; discriminate) eq_refl)).
  - apply (proj1 (X25_tokenURI_follows_parent (set_baseTokenURI EmptyString minted_three) 2
                    EmptyString ltac:(vm_compute; discriminate) eq_refl)).
Defined.

(** ** Minting while paused *)


